(** * react-control-flow: the resource model, its transition function and
      the useAsyncState race guard

    A shallow embedding of [src/models/Resource.ts] (createResource,
    getResourceStateByData, nextResource, renew, resolve, reject and the
    Suspense accessor) and of the [useAsyncState] hook (set, asynHandler,
    read, the mount effect), followed by the properties of the
    specification that concern them. *)

From Stdlib Require Import ZArith.
From stdpp Require Import base option strings list gmap.

Local Open Scope Z_scope.

(* ===================================================================== *)
(** * JavaScript values *)
(* ===================================================================== *)

(** Promises are heap objects; a reference is the allocation number. *)
Abbreviation PromiseRef := nat (only parsing).

(** The run-time values that the fields [data], [error] and [latest] can
    hold.  Numbers are the integral ones; [VError] is an [Error] instance
    with its message; [VNullishError] is an instance of the class
    [NullishError], an error that wraps a rejection reason (its [cause]);
    [VObj] is any other object, one without a [then] method, named by its
    allocation number; [VPromise] is a [Promise] instance. *)
Inductive Value :=
  | VUndefined
  | VNull
  | VBool (b : bool)
  | VNum (n : Z)
  | VStr (s : string)
  | VError (message : string)
  | VNullishError (cause : Value)
  | VObj (o : nat)
  | VPromise (p : PromiseRef).

Global Instance Value_eq_dec : EqDecision Value.
Proof. solve_decision. Defined.

(** [ToBoolean]: what [if (v)] and [!!v] test. *)
Definition truthy (v : Value) : bool :=
  match v with
  | VUndefined | VNull => false
  | VBool b => b
  | VNum n => negb (n =? 0)
  | VStr s => negb (String.eqb s EmptyString)
  | VError _ | VNullishError _ | VObj _ | VPromise _ => true
  end.

(** [v !== undefined] *)
Definition defined (v : Value) : bool :=
  match v with VUndefined => false | _ => true end.

(** [v != null]: loose inequality, false for [null] and [undefined] only. *)
Definition not_nullish (v : Value) : bool :=
  match v with VUndefined | VNull => false | _ => true end.

(** [v instanceof Promise] *)
Definition instanceofPromise (v : Value) : bool :=
  match v with VPromise _ => true | _ => false end.

(* ===================================================================== *)
(** * ResourceLike and the state classification *)
(* ===================================================================== *)

Inductive ResourceState := unresolved | pending | ready | refreshing | errored.

Global Instance ResourceState_eq_dec : EqDecision ResourceState.
Proof. solve_decision. Defined.

(** [interface ResourceLike<T>]: [loading] is an optional boolean, so it
    can be missing ([None]), which is falsy. *)
Module ResourceLike.
Record t := mk {
  loading : option bool;
  data : Value;
  error : Value;
}.
End ResourceLike.

(** Truthiness of an optional boolean field. *)
Definition truthy_flag (f : option bool) : bool := default false f.

Definition getResourceStateByData (i : ResourceLike.t) : ResourceState :=
  if defined (ResourceLike.data i) && truthy_flag (ResourceLike.loading i) then refreshing
  else if truthy_flag (ResourceLike.loading i) then pending
  else if defined (ResourceLike.error i) then errored
  else if truthy (ResourceLike.data i) then ready
  else unresolved.

(* ===================================================================== *)
(** * The heap: promises and promise storages *)
(* ===================================================================== *)

(** [Following q] is the state of a promise that was resolved with the
    promise [q]: it is locked in, no later call of its settling functions
    has an effect, and it stays unsettled until [q] settles, whose outcome
    it takes. *)
Inductive PromiseState :=
  | Pending
  | Fulfilled (value : Value)
  | Rejected (reason : Value)
  | Following (q : PromiseRef).

Global Instance PromiseState_eq_dec : EqDecision PromiseState.
Proof. solve_decision. Defined.

(** [type PromiseControls = { resolve, reject }]: the two functions that the
    executor of [new Promise] receives.  Each closure is identified by the
    promise it settles. *)
Record PromiseControls := mkControls {
  ctl_resolve : PromiseRef;
  ctl_reject : PromiseRef;
}.

Global Instance PromiseControls_eq_dec : EqDecision PromiseControls.
Proof. solve_decision. Defined.

(** Storages are objects too: a reference is a number, and
    [defaultStorage] is the module-level instance. *)
Abbreviation StorageRef := nat (only parsing).
Definition defaultStorage : StorageRef := 0%nat.

Record Heap := mkHeap {
  promises : list PromiseState;
  storages : gmap nat (gmap nat PromiseControls);
}.

Definition emptyHeap : Heap := {| promises := []; storages := ∅ |}.

(** Code that reads and writes the heap. *)
Definition M (A : Type) : Type := Heap → A * Heap.

Global Instance M_ret : MRet M := λ A a h, (a, h).
Global Instance M_bind : MBind M := λ A B k m h, let r := m h in k r.1 r.2.

(** [new Promise(executor)] and [Promise.resolve(v)] / [Promise.reject(v)]
    for a [v] that is not a thenable: a new object in the given state. *)
Definition allocPromise (st : PromiseState) : M PromiseRef := λ h,
  (length (promises h), {| promises := promises h ++ [st]; storages := storages h |}).

(** Calling a settling function of promise [p]: only the first call on a
    pending promise has an effect. *)
Definition settle (p : PromiseRef) (st : PromiseState) : M unit := λ h,
  match promises h !! p with
  | Some Pending => (tt, {| promises := <[p := st]> (promises h); storages := storages h |})
  | _ => (tt, h)
  end.

(** What the resolve function of promise [p] makes of the value it is
    called with: a promise is followed, the promise itself is a chaining
    cycle, which rejects with a [TypeError], and any other value fulfils. *)
Definition resolution (p : PromiseRef) (v : Value) : PromiseState :=
  match v with
  | VPromise q =>
      if decide (q = p)
      then Rejected (VError "Chaining cycle detected for promise #<Promise>")
      else Following q
  | _ => Fulfilled v
  end.

(** The entries of storage [s]. *)
Definition registry (h : Heap) (s : StorageRef) : gmap nat PromiseControls :=
  default ∅ (storages h !! s).

(** Modelled from the spec: the class [ResourceStorage] of
    [./ResourceStorage] is not among the sources.  Its contract is
    [set(promiseHandle, controls)], [get(promiseHandle) -> controls | absent],
    [delete(promiseHandle)], [has(promiseHandle) -> bool], where [get] and
    [delete] on an unknown handle are no-ops. *)
Module ResourceStorage.
Definition get (s : StorageRef) (p : PromiseRef) : M (option PromiseControls) := λ h,
  (registry h s !! p, h).
Definition has (s : StorageRef) (p : PromiseRef) : M bool := λ h,
  (bool_decide (is_Some (registry h s !! p)), h).
Definition set (s : StorageRef) (p : PromiseRef) (c : PromiseControls) : M unit := λ h,
  (tt, {| promises := promises h; storages := <[s := <[p := c]> (registry h s)]> (storages h) |}).
Definition delete (s : StorageRef) (p : PromiseRef) : M unit := λ h,
  (tt, {| promises := promises h; storages := <[s := base.delete p (registry h s)]> (storages h) |}).
End ResourceStorage.

(* ===================================================================== *)
(** * Resource *)
(* ===================================================================== *)

(** [interface Resource<T> extends ResourceLike<T>].  The object is built
    field by field, so [promise] can still be unset ([None]). *)
Module Resource.
Record t := mk {
  loading : bool;
  data : Value;
  error : Value;
  latest : Value;
  state : ResourceState;
  promise : option PromiseRef;
}.

(** The function object before any field is assigned; [loading] and
    [state] are assigned before they are read. *)
Definition blank : t :=
  mk false VUndefined VUndefined VUndefined unresolved None.

Definition set_loading (b : bool) (r : t) : t :=
  mk b (data r) (error r) (latest r) (state r) (promise r).
Definition set_data (v : Value) (r : t) : t :=
  mk (loading r) v (error r) (latest r) (state r) (promise r).
Definition set_error (v : Value) (r : t) : t :=
  mk (loading r) (data r) v (latest r) (state r) (promise r).
Definition set_latest (v : Value) (r : t) : t :=
  mk (loading r) (data r) (error r) v (state r) (promise r).
Definition set_state (s : ResourceState) (r : t) : t :=
  mk (loading r) (data r) (error r) (latest r) s (promise r).
Definition set_promise (p : option PromiseRef) (r : t) : t :=
  mk (loading r) (data r) (error r) (latest r) (state r) p.

(** A resource seen through the interface it extends. *)
Definition like (r : t) : ResourceLike.t :=
  ResourceLike.mk (Some (loading r)) (data r) (error r).
End Resource.

Global Instance Resource_eq_dec : EqDecision Resource.t.
Proof. solve_decision. Defined.

Definition renew (storage : StorageRef) (res : Resource.t) : M Resource.t :=
  _ ← match Resource.promise res with
      | Some old => ResourceStorage.delete storage old
      | None => mret tt
      end;
  promise ← allocPromise Pending;
  let controls := {| ctl_resolve := promise; ctl_reject := promise |} in
  let res := Resource.set_promise (Some promise) res in
  _ ← ResourceStorage.set storage promise controls;
  mret res.

Definition resolve (storage : StorageRef) (res : Resource.t) : M unit :=
  match Resource.promise res with
  | None => mret tt
  | Some promise =>
      controls ← ResourceStorage.get storage promise;
      _ ← match controls with
          | Some c =>
              settle (ctl_resolve c) (resolution (ctl_resolve c) (Resource.data res))
          | None => mret tt
          end;
      ResourceStorage.delete storage promise
  end.

Definition reject (storage : StorageRef) (res : Resource.t) : M unit :=
  match Resource.promise res with
  | None => mret tt
  | Some promise =>
      controls ← ResourceStorage.get storage promise;
      _ ← match controls with
          | Some c => settle (ctl_reject c) (Rejected (Resource.data res))
          | None => mret tt
          end;
      ResourceStorage.delete storage promise
  end.

(** [createResource(data?, storage = defaultStorage)]; an omitted [data] is
    [VUndefined]. *)
Definition createResource (data : Value) (storage : StorageRef) : M Resource.t :=
  let res := Resource.blank in
  res ← (if instanceofPromise data then
           let res := Resource.set_data VUndefined res in
           let res := Resource.set_loading true res in
           renew storage res
         else
           let res := Resource.set_data data res in
           let res := Resource.set_loading false res in
           if defined data then
             promise ← allocPromise (Fulfilled data);
             mret (Resource.set_promise (Some promise) res)
           else renew storage res);
  let res := Resource.set_error VUndefined res in
  let res := Resource.set_latest VUndefined res in
  let res := Resource.set_state (getResourceStateByData (Resource.like res)) res in
  mret res.

(** How a call ends: with a returned value or with a thrown one. *)
Inductive Completion :=
  | Return (v : Value)
  | Throw (v : Value).

Global Instance Completion_eq_dec : EqDecision Completion.
Proof. solve_decision. Defined.

(** The accessor for Suspense: the resource called as a function. *)
Definition accessor (res : Resource.t) : M Completion :=
  if Resource.loading res then
    match Resource.promise res with
    | None =>
        rejected ← allocPromise (Rejected (VError "incorrect resource state"));
        mret (Throw (VPromise rejected))
    | Some promise => mret (Throw (VPromise promise))
    end
  else if truthy (Resource.error res) then mret (Throw (Resource.error res))
  else mret (Return (Resource.data res)).

(** The patch argument of [nextResource]: [{ loading, data?, error }]; a
    field that is left out is [VUndefined]. *)
Module Patch.
Record t := mk {
  loading : bool;
  data : Value;
  error : Value;
}.
End Patch.

Definition nextResource (target : Resource.t) (data : Patch.t) (storage : StorageRef)
  : M Resource.t :=
  result ← createResource VUndefined defaultStorage;
  let result := Resource.set_data (Patch.data data) result in
  let result := Resource.set_loading (Patch.loading data) result in
  let result := Resource.set_error (Patch.error data) result in
  let result :=
    if not_nullish (Resource.data result)
    then Resource.set_latest (Resource.data result) result
    else result in
  let result := Resource.set_state (getResourceStateByData (Resource.like result)) result in
  if negb (eqb (Resource.loading target) (Resource.loading result)) then
    if Resource.loading result then renew storage result
    else if defined (Resource.error result) then
      _ ← reject storage result; mret result
    else
      _ ← resolve storage result; mret result
  else
    mret (Resource.set_promise (Resource.promise target) result).

(** Modelled from the spec: the reducer [useResourceReducer] and the class
    [NullishError] are not among the sources.  A rejection is dispatched
    as an error patch: loading is over, the previous data is cleared once
    an error lands, and a reason that is [undefined] or [null] is replaced
    by a sentinel error that wraps the nullish reason and retains it. *)
Definition rejectPatch (reason : Value) : Patch.t :=
  Patch.mk false VUndefined
    (if not_nullish reason then reason else VNullishError reason).

(** Modelled from the spec: dispatching the patch advances the current
    resource through the transition function, with the default registry. *)
Definition dispatchReject (current : Resource.t) (reason : Value) : M Resource.t :=
  nextResource current (rejectPatch reason) defaultStorage.

(* ===================================================================== *)
(** * useAsyncState *)
(* ===================================================================== *)

(** [interface AsyncState<T>]: [{ loading, error, result, promise }], with
    [null] for a promise that is not there. *)
Module AsyncState.
Record t := mk {
  loading : bool;
  error : Value;
  result : Value;
  promise : option PromiseRef;
}.
End AsyncState.

(** The actions that [useAsyncState] dispatches; ["SYNC-RESULT"] is
    [SYNC_RESULT]. *)
Inductive Action :=
  | LOADING (payload : PromiseRef)
  | RESULT (payload : Value)
  | ERROR (payload : Value)
  | SYNC_RESULT (payload : Value).

(** [interface UseAsyncStateOpts]: both callbacks are optional; a callback
    is code of the caller, which can touch the heap and can throw.  The
    [context] that is handed back to them plays no part in the hook. *)
Record UseAsyncStateOpts := mkOpts {
  onCompleted : option (Value → M Completion);
  onError : option (Value → M Completion);
}.

(** What [await val] yields once [val] has settled. *)
Inductive Settlement :=
  | Fulfils (data : Value)
  | Rejects (err : Value).

(** A record of the callbacks that were invoked, for observation. *)
Inductive Call :=
  | CallOnCompleted (data : Value)
  | CallOnError (err : Value).

(** One instance of the hook: the reducer state, the ref [lastPrms], and
    the invocations of [asynHandler] that are suspended at [await val]. *)
Module Hook.
Record t := mk {
  state : AsyncState.t;
  lastPrms : option PromiseRef;
  awaiting : list PromiseRef;
  calls : list Call;
}.

Definition set_state (s : AsyncState.t) (h : t) : t :=
  mk s (lastPrms h) (awaiting h) (calls h).
Definition set_lastPrms (p : option PromiseRef) (h : t) : t :=
  mk (state h) p (awaiting h) (calls h).
Definition set_awaiting (l : list PromiseRef) (h : t) : t :=
  mk (state h) (lastPrms h) l (calls h).
Definition log (c : Call) (h : t) : t :=
  mk (state h) (lastPrms h) (awaiting h) (calls h ++ [c]).

(** [useRef(state.promise)] on the first render. *)
Definition init (s : AsyncState.t) : t :=
  mk s (AsyncState.promise s) [] [].
End Hook.

(** What happens to an instance: the mount effect and its cleanup, a call
    of [set], and the settlement of a promise, upon which the handlers that
    await it resume. *)
Inductive Event :=
  | Mount
  | Unmount
  | Set_ (val : Value)
  | Settled (val : PromiseRef) (outcome : Settlement).

Module useAsyncState.
Section hook.
(** The reducer of [useAsyncStateReducer], which is not among the
    sources, and the options of the hook. *)
Variable reducer : AsyncState.t → Action → M AsyncState.t.
Variable opts : UseAsyncStateOpts.

Definition dispatch (a : Action) (h : Hook.t) : M Hook.t :=
  s ← reducer (Hook.state h) a;
  mret (Hook.set_state s h).

(** [cb?.(arg, context!)]: the thrown value, if the callback throws. *)
Definition invoke (cb : option (Value → M Completion)) (c : Call) (arg : Value)
    (h : Hook.t) : M (Hook.t * option Value) :=
  match cb with
  | None => mret (h, None)
  | Some f =>
      r ← f arg;
      mret (Hook.log c h, match r with Throw e => Some e | Return _ => None end)
  end.

(** [asynHandler(val)] up to its [await val]. *)
Definition asynHandler (val : PromiseRef) (h : Hook.t) : M Hook.t :=
  mret (Hook.set_awaiting (Hook.awaiting h ++ [val]) h).

(** The [catch (err)] block of [asynHandler]. *)
Definition asynHandler_catch (val : PromiseRef) (err : Value) (h : Hook.t) : M Hook.t :=
  if decide (Hook.lastPrms h = Some val) then
    h ← dispatch (ERROR err) h;
    r ← invoke (onError opts) (CallOnError err) err h;
    mret r.1
  else mret h.

(** [asynHandler(val)] from its [await val] on. *)
Definition asynHandler_resume (val : PromiseRef) (outcome : Settlement) (h : Hook.t)
    : M Hook.t :=
  match outcome with
  | Fulfils data =>
      if decide (Hook.lastPrms h = Some val) then
        h ← dispatch (RESULT data) h;
        r ← invoke (onCompleted opts) (CallOnCompleted data) data h;
        match r.2 with
        | Some err => asynHandler_catch val err r.1
        | None => mret r.1
        end
      else mret h
  | Rejects err => asynHandler_catch val err h
  end.

Definition set (val : Value) (h : Hook.t) : M Hook.t :=
  match val with
  | VPromise p =>
      let h := Hook.set_lastPrms (Some p) h in
      h ← dispatch (LOADING p) h;
      asynHandler p h
  | _ => dispatch (SYNC_RESULT val) h
  end.

Definition read (h : Hook.t) : Completion :=
  let state := Hook.state h in
  if AsyncState.loading state then
    Throw (from_option VPromise VNull (AsyncState.promise state))
  else if truthy (AsyncState.error state) then Throw (AsyncState.error state)
  else Return (AsyncState.result state).

(** The effect that runs on mount, and its cleanup. *)
Definition mount (h : Hook.t) : M Hook.t :=
  let state := Hook.state h in
  let h := Hook.set_lastPrms (AsyncState.promise state) h in
  match AsyncState.loading state, AsyncState.promise state with
  | true, Some p => asynHandler p h
  | _, _ => mret h
  end.

Definition unmount (h : Hook.t) : M Hook.t :=
  mret (Hook.set_lastPrms None h).

(** Every handler that awaits [val] resumes, in the order of the calls. *)
Fixpoint resume_all (val : PromiseRef) (outcome : Settlement) (n : nat) (h : Hook.t)
    : M Hook.t :=
  match n with
  | O => mret h
  | S n => h ← asynHandler_resume val outcome h; resume_all val outcome n h
  end.

Definition settled (val : PromiseRef) (outcome : Settlement) (h : Hook.t) : M Hook.t :=
  let n := length (filter (λ q, q = val) (Hook.awaiting h)) in
  let h := Hook.set_awaiting (filter (λ q, q ≠ val) (Hook.awaiting h)) h in
  resume_all val outcome n h.

Definition step (h : Hook.t) (e : Event) : M Hook.t :=
  match e with
  | Mount => mount h
  | Unmount => unmount h
  | Set_ val => set val h
  | Settled val outcome => settled val outcome h
  end.

Fixpoint run (h : Hook.t) (es : list Event) : M Hook.t :=
  match es with
  | [] => mret h
  | e :: es => h ← step h e; run h es
  end.
End hook.
End useAsyncState.

(** Modelled from the spec: the reducer [useAsyncStateReducer] is not among
    the sources.  The README describes it: a call of [set] resets the
    previous result and error to null; a value that is not a promise is
    resolved at once, with [loading] false and a fake promise that is
    already resolved; a promise is kept in the [promise] field while it
    loads. *)
Definition asyncStateReducer (s : AsyncState.t) (a : Action) : M AsyncState.t :=
  match a with
  | LOADING p => mret (AsyncState.mk true VNull VNull (Some p))
  | RESULT data => mret (AsyncState.mk false VNull data (AsyncState.promise s))
  | ERROR err => mret (AsyncState.mk false err VNull (AsyncState.promise s))
  | SYNC_RESULT val =>
      fake ← allocPromise (Fulfilled val);
      mret (AsyncState.mk false VNull val (Some fake))
  end.

(** Applying a settlement to the model, as the specification words it: the
    outcome is dispatched and reported, with no guard in the way. *)
Definition apply_settlement (reducer : AsyncState.t → Action → M AsyncState.t)
    (opts : UseAsyncStateOpts) (outcome : Settlement) (h : Hook.t) : M Hook.t :=
  let report_error err h :=
    h ← useAsyncState.dispatch reducer (ERROR err) h;
    r ← useAsyncState.invoke (onError opts) (CallOnError err) err h;
    mret r.1 in
  match outcome with
  | Fulfils data =>
      h ← useAsyncState.dispatch reducer (RESULT data) h;
      r ← useAsyncState.invoke (onCompleted opts) (CallOnCompleted data) data h;
      match r.2 with
      | Some err => report_error err r.1
      | None => mret r.1
      end
  | Rejects err => report_error err h
  end.

(** What an observer of the instance sees: everything but the bookkeeping of
    suspended handlers. *)
Definition observe (r : Hook.t * Heap) : AsyncState.t * option PromiseRef * list Call * Heap :=
  (Hook.state r.1, Hook.lastPrms r.1, Hook.calls r.1, r.2).

(* ===================================================================== *)
(** * Well-formed heaps and consistent resources *)
(* ===================================================================== *)

(** Every storage entry belongs to an allocated promise and holds the
    controls of that very promise. *)
Definition heap_wf (σ : Heap) : Prop :=
  ∀ s p c, registry σ s !! p = Some c →
    (p < length (promises σ))%nat ∧ c = mkControls p p.

(** The [state] field is the classification of the core fields, and the
    promise is there. *)
Definition consistent (r : Resource.t) : Prop :=
  Resource.state r = getResourceStateByData (Resource.like r)
  ∧ is_Some (Resource.promise r).

(** The promise of [r] is an allocated object of the heap. *)
Definition promise_allocated (σ : Heap) (r : Resource.t) : Prop :=
  ∃ p, Resource.promise r = Some p ∧ (p < length (promises σ))%nat.

(** The fields that a patch sets, read back from a resource. *)
Definition fields (r : Resource.t) : Patch.t :=
  Patch.mk (Resource.loading r) (Resource.data r) (Resource.error r).

(** Promise [q] is in the same state and has the same storage entries in
    [σ'] as in [σ]. *)
Definition same_at (q : PromiseRef) (σ σ' : Heap) : Prop :=
  promises σ' !! q = promises σ !! q
  ∧ ∀ s, registry σ' s !! q = registry σ s !! q.

(* ===================================================================== *)
(** * Concrete runs used below *)
(* ===================================================================== *)

(** [createResource()] in a program that has allocated nothing yet. *)
Definition run_create : Resource.t * Heap :=
  createResource VUndefined defaultStorage emptyHeap.

(** ... advanced with [{ loading: true }]: a pending resource. *)
Definition run_pending : Resource.t * Heap :=
  nextResource run_create.1 (Patch.mk true VUndefined VUndefined) defaultStorage run_create.2.

(** ... resolved with ["x"]: a ready resource whose [latest] is ["x"]. *)
Definition run_ready : Resource.t * Heap :=
  nextResource run_pending.1 (Patch.mk false (VStr "x") VUndefined) defaultStorage run_pending.2.

(** A hook that has loaded nothing yet, and callbacks that return. *)
Definition idle : Hook.t := Hook.init (AsyncState.mk false VNull VNull None).

Definition returning_callbacks : UseAsyncStateOpts :=
  mkOpts (Some (λ _, mret (Return VUndefined))) (Some (λ _, mret (Return VUndefined))).

(** Two calls in flight: [set] with promise 1, then with promise 2. *)
Definition two_in_flight : Hook.t * Heap :=
  useAsyncState.run asyncStateReducer returning_callbacks idle
    [Set_ (VPromise 1); Set_ (VPromise 2)] emptyHeap.

(** An instance whose first render is in a loading state with promise 1,
    and callbacks of which [onCompleted] throws. *)
Definition loading_hook : Hook.t :=
  Hook.init (AsyncState.mk true VNull VNull (Some 1%nat)).

Definition throwing_callbacks : UseAsyncStateOpts :=
  mkOpts (Some (λ _, mret (Throw (VStr "boom")))) (Some (λ _, mret (Return VUndefined))).

(* ===================================================================== *)
(** * Proof steps *)
(* ===================================================================== *)

(** Unfolds the classification down to its tests. *)
Ltac classify :=
  unfold getResourceStateByData;
  cbn [ResourceLike.data ResourceLike.loading ResourceLike.error].

(** Runs the monadic plumbing. *)
Ltac run_M := unfold mbind, M_bind, mret, M_ret; cbn beta iota zeta.

(* ===================================================================== *)
(** * The classification *)
(* ===================================================================== *)

Section classification.
Implicit Types (i : ResourceLike.t) (data error : Value).

(** The five rows of the table, as the tests of the function read them:
    data is there when it is defined while loading and when it is truthy
    otherwise; an error is there when it is defined. *)
Lemma classify_unresolved loading error data :
  truthy_flag loading = false → data = VUndefined → error = VUndefined →
  getResourceStateByData (ResourceLike.mk loading data error) = unresolved.
Proof. intros Hl -> ->. classify. by rewrite Hl. Qed.

Lemma classify_pending error :
  getResourceStateByData (ResourceLike.mk (Some true) VUndefined error) = pending.
Proof. reflexivity. Qed.

Lemma classify_refreshing data error :
  defined data = true →
  getResourceStateByData (ResourceLike.mk (Some true) data error) = refreshing.
Proof. intros Hd. classify. by rewrite Hd. Qed.

Lemma classify_ready loading data :
  truthy_flag loading = false → truthy data = true →
  getResourceStateByData (ResourceLike.mk loading data VUndefined) = ready.
Proof.
  intros Hl Hd. classify.
  rewrite Hl, Hd, andb_false_r. done.
Qed.

Lemma classify_errored loading data error :
  truthy_flag loading = false → defined error = true →
  getResourceStateByData (ResourceLike.mk loading data error) = errored.
Proof.
  intros Hl He. classify.
  rewrite Hl, He, andb_false_r. done.
Qed.

(** With nothing loading and no error, the outcome hangs on the
    truthiness of [data], not on its presence. *)
Lemma classify_settled_data loading data :
  truthy_flag loading = false →
  getResourceStateByData (ResourceLike.mk loading data VUndefined)
  = if truthy data then ready else unresolved.
Proof.
  intros Hl. classify.
  rewrite Hl, andb_false_r. done.
Qed.

Lemma truthy_defined data : truthy data = true → defined data = true.
Proof. by destruct data. Qed.

(** C1, at a falsy payload: [data] is present, [false] here (likewise [0],
    the empty string and [null]), nothing is loading and there is no
    error; the table says [ready], the function answers [unresolved]. *)
Theorem classify_present_falsy_data_unresolved :
  defined (VBool false) = true
  ∧ getResourceStateByData (ResourceLike.mk (Some false) (VBool false) VUndefined) = unresolved
  ∧ getResourceStateByData (ResourceLike.mk (Some false) (VNum 0) VUndefined) = unresolved
  ∧ getResourceStateByData (ResourceLike.mk (Some false) (VStr EmptyString) VUndefined) = unresolved
  ∧ getResourceStateByData (ResourceLike.mk (Some false) VNull VUndefined) = unresolved
  ∧ getResourceStateByData (ResourceLike.mk (Some true) (VBool false) VUndefined) = refreshing.
Proof. repeat split. Qed.

(** C10: loading takes precedence over an error, which takes precedence
    over data.  If [loading] is true the state is [refreshing] when
    [data] is defined and [pending] otherwise, whatever [error] is, and so
    it is never [errored]; if [loading] is false and [error] is defined,
    the state is [errored], whatever [data] is. *)
Theorem classify_precedence i :
  (truthy_flag (ResourceLike.loading i) = true →
     getResourceStateByData i
     = (if defined (ResourceLike.data i) then refreshing else pending)
     ∧ getResourceStateByData i ≠ errored)
  ∧ (truthy_flag (ResourceLike.loading i) = false →
     defined (ResourceLike.error i) = true →
     getResourceStateByData i = errored).
Proof.
  destruct i as [l d e].
  cbn [ResourceLike.data ResourceLike.loading ResourceLike.error]. split.
  - intros Hl. classify. rewrite Hl.
    destruct (defined d); cbn; by split.
  - intros Hl He. by apply classify_errored.
Qed.

Lemma classify_precedence_witness :
  (truthy_flag (Some true) = true
   ∧ getResourceStateByData (ResourceLike.mk (Some true) (VStr "x") (VStr "e")) = refreshing
   ∧ getResourceStateByData (ResourceLike.mk (Some true) VUndefined (VStr "e")) = pending)
  ∧ (truthy_flag (Some false) = false ∧ defined (VStr "e") = true
     ∧ getResourceStateByData (ResourceLike.mk (Some false) (VStr "x") (VStr "e")) = errored).
Proof.
  split.
  - split; [reflexivity|]. split.
    + exact (proj1 (proj1 (classify_precedence
               (ResourceLike.mk (Some true) (VStr "x") (VStr "e"))) eq_refl)).
    + exact (proj1 (proj1 (classify_precedence
               (ResourceLike.mk (Some true) VUndefined (VStr "e"))) eq_refl)).
  - split; [reflexivity|]. split; [reflexivity|].
    exact (proj2 (classify_precedence
             (ResourceLike.mk (Some false) (VStr "x") (VStr "e"))) eq_refl eq_refl).
Defined.
End classification.

(* ===================================================================== *)
(** * The storage and the heap *)
(* ===================================================================== *)

Section heap.
Implicit Types (σ : Heap) (s : StorageRef) (p : PromiseRef) (c : PromiseControls).

Lemma registry_set s p c σ s' :
  registry (ResourceStorage.set s p c σ).2 s'
  = if decide (s' = s) then <[p := c]> (registry σ s) else registry σ s'.
Proof.
  unfold registry at 1; cbn. case_decide as Hs.
  - subst. by rewrite lookup_insert_eq.
  - by rewrite lookup_insert_ne.
Qed.

Lemma registry_delete s p σ s' :
  registry (ResourceStorage.delete s p σ).2 s'
  = if decide (s' = s) then delete p (registry σ s) else registry σ s'.
Proof.
  unfold registry at 1; cbn. case_decide as Hs.
  - subst. by rewrite lookup_insert_eq.
  - by rewrite lookup_insert_ne.
Qed.

(** The contract of the storage: what was set is found, what was deleted
    is gone, and [get] and [delete] of an unknown handle change nothing
    that can be looked up. *)
Lemma get_set s p c σ :
  (ResourceStorage.get s p (ResourceStorage.set s p c σ).2).1 = Some c.
Proof.
  unfold ResourceStorage.get; cbn [fst].
  rewrite registry_set, decide_True by done. apply lookup_insert_eq.
Qed.

Lemma get_delete s p σ :
  (ResourceStorage.get s p (ResourceStorage.delete s p σ).2).1 = None.
Proof.
  unfold ResourceStorage.get; cbn [fst].
  rewrite registry_delete, decide_True by done. apply lookup_delete_eq.
Qed.


Lemma has_get s p σ :
  (ResourceStorage.has s p σ).1 = bool_decide (is_Some (ResourceStorage.get s p σ).1).
Proof. reflexivity. Qed.

(** Settling never touches a storage, keeps the number of promises, and
    changes a promise only if it was pending. *)
Lemma settle_registry p st σ s : registry (settle p st σ).2 s = registry σ s.
Proof. unfold settle. by destruct (promises σ !! p) as [[]|]. Qed.

Lemma settle_length p st σ : length (promises (settle p st σ).2) = length (promises σ).
Proof.
  unfold settle. destruct (promises σ !! p) as [[]|]; cbn; try done.
  apply length_insert.
Qed.

Lemma settle_other p st σ q :
  q ≠ p → promises (settle p st σ).2 !! q = promises σ !! q.
Proof.
  intros Hq. unfold settle. destruct (promises σ !! p) as [[]|]; cbn; try done.
  by apply list_lookup_insert_ne.
Qed.

Lemma settle_pending p st σ :
  promises σ !! p = Some Pending → promises (settle p st σ).2 !! p = Some st.
Proof.
  intros Hp. unfold settle. rewrite Hp; cbn.
  apply list_lookup_insert_eq. by eapply lookup_lt_Some.
Qed.

(** A promise that has settled stays as it is: it is settled once. *)
Lemma settle_settled p st σ :
  promises σ !! p ≠ Some Pending → (settle p st σ).2 = σ.
Proof. intros Hp. unfold settle. by destruct (promises σ !! p) as [[]|]. Qed.

Lemma heap_wf_empty : heap_wf emptyHeap.
Proof. intros s p c. unfold registry; cbn. by rewrite lookup_empty. Qed.
End heap.

(* ===================================================================== *)
(** * What the heap operations leave alone *)
(* ===================================================================== *)

Section frame.
Implicit Types (σ : Heap) (s storage : StorageRef) (p q : PromiseRef).

Lemma same_at_refl q σ : same_at q σ σ.
Proof. by split. Qed.

Lemma same_at_trans q σ1 σ2 σ3 : same_at q σ1 σ2 → same_at q σ2 σ3 → same_at q σ1 σ3.
Proof.
  intros [Hp1 Hr1] [Hp2 Hr2]. split; [congruence|].
  intros s. by rewrite Hr2, Hr1.
Qed.

Lemma alloc_same_at st q σ :
  (q < length (promises σ))%nat → same_at q σ (allocPromise st σ).2.
Proof. intros Hq. split; [|done]. cbn. by apply lookup_app_l. Qed.

Lemma alloc_wf st σ : heap_wf σ → heap_wf (allocPromise st σ).2.
Proof.
  intros Hwf s p c Hc. destruct (Hwf s p c Hc) as [Hp ->].
  split; [|done]. cbn. rewrite length_app. lia.
Qed.

Lemma set_same_at s p c q σ : q ≠ p → same_at q σ (ResourceStorage.set s p c σ).2.
Proof.
  intros Hq. split; [done|]. intros s'. rewrite registry_set.
  case_decide; [subst|done]. by rewrite lookup_insert_ne.
Qed.

Lemma set_wf s p σ :
  (p < length (promises σ))%nat → heap_wf σ →
  heap_wf (ResourceStorage.set s p (mkControls p p) σ).2.
Proof.
  intros Hp Hwf s' q c. rewrite registry_set. case_decide; [subst|by apply Hwf].
  destruct (decide (q = p)) as [->|Hq].
  - rewrite lookup_insert_eq. by intros [= <-].
  - rewrite lookup_insert_ne by done. apply Hwf.
Qed.

Lemma delete_same_at s p q σ : q ≠ p → same_at q σ (ResourceStorage.delete s p σ).2.
Proof.
  intros Hq. split; [done|]. intros s'. rewrite registry_delete.
  case_decide; [subst|done]. by rewrite lookup_delete_ne.
Qed.

Lemma delete_wf s p σ : heap_wf σ → heap_wf (ResourceStorage.delete s p σ).2.
Proof.
  intros Hwf s' q c. rewrite registry_delete. case_decide; [subst|by apply Hwf].
  intros [_ Hc]%lookup_delete_Some. by apply Hwf in Hc.
Qed.

Lemma settle_same_at p st q σ : q ≠ p → same_at q σ (settle p st σ).2.
Proof.
  intros Hq. split; [by apply settle_other|].
  intros s. by rewrite settle_registry.
Qed.

Lemma settle_wf p st σ : heap_wf σ → heap_wf (settle p st σ).2.
Proof.
  intros Hwf s q c. rewrite settle_registry, settle_length. apply Hwf.
Qed.
End frame.

(* ===================================================================== *)
(** * renew, resolve, reject and createResource *)
(* ===================================================================== *)

Section promise_operations.
Implicit Types (σ : Heap) (storage : StorageRef) (res : Resource.t) (q : PromiseRef).

Lemma renew_result storage res σ :
  (renew storage res σ).1 = Resource.set_promise (Some (length (promises σ))) res.
Proof. unfold renew. run_M. by destruct (Resource.promise res). Qed.

Lemma renew_promises storage res σ :
  promises (renew storage res σ).2 = promises σ ++ [Pending].
Proof. unfold renew. run_M. by destruct (Resource.promise res). Qed.

Lemma renew_registered storage res σ :
  let n := length (promises σ) in
  registry (renew storage res σ).2 storage !! n = Some (mkControls n n).
Proof.
  unfold renew. run_M.
  destruct (Resource.promise res); cbn [fst snd];
    rewrite registry_set, decide_True by done; apply lookup_insert_eq.
Qed.

Lemma renew_same_at storage res σ q :
  (q < length (promises σ))%nat → Resource.promise res ≠ Some q →
  same_at q σ (renew storage res σ).2.
Proof.
  intros Hq Hold. unfold renew. run_M.
  destruct (Resource.promise res) as [old|]; cbn [fst snd].
  - eapply same_at_trans; [apply (delete_same_at storage old); congruence|].
    eapply same_at_trans; [by apply alloc_same_at|].
    apply set_same_at. cbn. lia.
  - eapply same_at_trans; [by apply alloc_same_at|].
    apply set_same_at. cbn. lia.
Qed.

Lemma renew_wf storage res σ : heap_wf σ → heap_wf (renew storage res σ).2.
Proof.
  intros Hwf. unfold renew. run_M.
  destruct (Resource.promise res) as [old|]; cbn [fst snd].
  - apply set_wf; [cbn; rewrite length_app; cbn; lia|].
    by apply alloc_wf, delete_wf.
  - apply set_wf; [cbn; rewrite length_app; cbn; lia|].
    by apply alloc_wf.
Qed.

(** [resolve] and [reject] differ in the settlement only; both hand over
    [res.data]. *)
Lemma reject_unfold storage res σ :
  match Resource.promise res with
  | None => reject storage res σ = (tt, σ)
  | Some p =>
      reject storage res σ
      = ResourceStorage.delete storage p
          (match registry σ storage !! p with
           | Some c => (settle (ctl_reject c) (Rejected (Resource.data res)) σ).2
           | None => σ
           end)
  end.
Proof.
  unfold reject. destruct (Resource.promise res) as [p|]; [|done].
  run_M. unfold ResourceStorage.get.
  by destruct (registry σ storage !! p).
Qed.

Lemma resolve_unfold storage res σ :
  match Resource.promise res with
  | None => resolve storage res σ = (tt, σ)
  | Some p =>
      resolve storage res σ
      = ResourceStorage.delete storage p
          (match registry σ storage !! p with
           | Some c =>
               (settle (ctl_resolve c)
                  (resolution (ctl_resolve c) (Resource.data res)) σ).2
           | None => σ
           end)
  end.
Proof.
  unfold resolve. destruct (Resource.promise res) as [p|]; [|done].
  run_M. unfold ResourceStorage.get.
  by destruct (registry σ storage !! p).
Qed.

Lemma resolve_same_at storage res σ q :
  heap_wf σ → Resource.promise res ≠ Some q → same_at q σ (resolve storage res σ).2.
Proof.
  intros Hwf Hq. pose proof (resolve_unfold storage res σ) as Hr.
  destruct (Resource.promise res) as [p|]; rewrite Hr; [|apply same_at_refl].
  assert (q ≠ p) by congruence.
  destruct (registry σ storage !! p) as [c|] eqn:Hc.
  - destruct (Hwf _ _ _ Hc) as [_ ->]. cbn [ctl_resolve].
    eapply same_at_trans; [by apply settle_same_at|by apply delete_same_at].
  - by apply delete_same_at.
Qed.

Lemma reject_same_at storage res σ q :
  heap_wf σ → Resource.promise res ≠ Some q → same_at q σ (reject storage res σ).2.
Proof.
  intros Hwf Hq. pose proof (reject_unfold storage res σ) as Hr.
  destruct (Resource.promise res) as [p|]; rewrite Hr; [|apply same_at_refl].
  assert (q ≠ p) by congruence.
  destruct (registry σ storage !! p) as [c|] eqn:Hc.
  - destruct (Hwf _ _ _ Hc) as [_ ->]. cbn [ctl_reject].
    eapply same_at_trans; [by apply settle_same_at|by apply delete_same_at].
  - by apply delete_same_at.
Qed.

Lemma resolve_wf storage res σ : heap_wf σ → heap_wf (resolve storage res σ).2.
Proof.
  intros Hwf. pose proof (resolve_unfold storage res σ) as Hr.
  destruct (Resource.promise res) as [p|]; rewrite Hr; [|done].
  apply delete_wf. destruct (registry σ storage !! p); [by apply settle_wf|done].
Qed.

Lemma reject_wf storage res σ : heap_wf σ → heap_wf (reject storage res σ).2.
Proof.
  intros Hwf. pose proof (reject_unfold storage res σ) as Hr.
  destruct (Resource.promise res) as [p|]; rewrite Hr; [|done].
  apply delete_wf. destruct (registry σ storage !! p); [by apply settle_wf|done].
Qed.

(** What [reject] does to the promise of [res] when it is registered and
    pending: the reason of the rejection is [res.data]. *)
Lemma reject_registered storage res σ p :
  Resource.promise res = Some p →
  registry σ storage !! p = Some (mkControls p p) →
  promises σ !! p = Some Pending →
  let σ' := (reject storage res σ).2 in
  promises σ' !! p = Some (Rejected (Resource.data res))
  ∧ registry σ' storage !! p = None.
Proof.
  intros Hp Hc Hpend. pose proof (reject_unfold storage res σ) as Hr.
  rewrite Hp in Hr. cbn zeta. rewrite Hr, Hc. cbn [ctl_reject]. split.
  - cbn. by apply settle_pending.
  - rewrite registry_delete, decide_True by done. apply lookup_delete_eq.
Qed.

Lemma resolve_registered storage res σ p :
  Resource.promise res = Some p →
  registry σ storage !! p = Some (mkControls p p) →
  promises σ !! p = Some Pending →
  let σ' := (resolve storage res σ).2 in
  promises σ' !! p = Some (resolution p (Resource.data res))
  ∧ registry σ' storage !! p = None.
Proof.
  intros Hp Hc Hpend. pose proof (resolve_unfold storage res σ) as Hr.
  rewrite Hp in Hr. cbn zeta. rewrite Hr, Hc. cbn [ctl_resolve]. split.
  - cbn. by apply settle_pending.
  - rewrite registry_delete, decide_True by done. apply lookup_delete_eq.
Qed.

(** A promise that the storage does not know is not settled. *)
Lemma resolve_unregistered storage res σ p :
  Resource.promise res = Some p → registry σ storage !! p = None →
  promises (resolve storage res σ).2 = promises σ.
Proof.
  intros Hp Hc. pose proof (resolve_unfold storage res σ) as Hr.
  rewrite Hp in Hr. by rewrite Hr, Hc.
Qed.

Lemma reject_unregistered storage res σ p :
  Resource.promise res = Some p → registry σ storage !! p = None →
  promises (reject storage res σ).2 = promises σ.
Proof.
  intros Hp Hc. pose proof (reject_unfold storage res σ) as Hr.
  rewrite Hp in Hr. by rewrite Hr, Hc.
Qed.

Lemma createResource_undefined storage σ :
  let n := length (promises σ) in
  createResource VUndefined storage σ
  = (Resource.mk false VUndefined VUndefined VUndefined unresolved (Some n),
     (ResourceStorage.set storage n (mkControls n n) (allocPromise Pending σ).2).2).
Proof. reflexivity. Qed.

(** The state of a new resource: a promise gives [pending]; a value gives
    [ready] when it is truthy and [unresolved] otherwise. *)
Lemma createResource_state data storage σ :
  Resource.state (createResource data storage σ).1
  = if instanceofPromise data then pending
    else if truthy data then ready else unresolved.
Proof. by destruct data as [| |[]|[]|[|[]]| | | |]. Qed.

Lemma createResource_consistent data storage σ :
  consistent (createResource data storage σ).1.
Proof.
  unfold createResource. run_M.
  destruct (instanceofPromise data); [|destruct (defined data)];
    cbn [fst snd]; try rewrite renew_result; split; cbn; eauto.
Qed.

Lemma createResource_allocated data storage σ :
  promise_allocated (createResource data storage σ).2 (createResource data storage σ).1.
Proof.
  exists (length (promises σ)). unfold createResource. run_M.
  destruct (instanceofPromise data); [|destruct (defined data)]; cbn [fst snd];
    try rewrite renew_result, renew_promises; cbn;
    (split; [done|rewrite length_app; cbn; lia]).
Qed.

Lemma createResource_same_at data storage σ q :
  (q < length (promises σ))%nat → same_at q σ (createResource data storage σ).2.
Proof.
  intros Hq. unfold createResource. run_M.
  destruct (instanceofPromise data); [|destruct (defined data)]; cbn [fst snd].
  - by apply renew_same_at.
  - by apply alloc_same_at.
  - by apply renew_same_at.
Qed.

Lemma createResource_wf data storage σ :
  heap_wf σ → heap_wf (createResource data storage σ).2.
Proof.
  intros Hwf. unfold createResource. run_M.
  destruct (instanceofPromise data); [|destruct (defined data)]; cbn [fst snd].
  - by apply renew_wf.
  - by apply alloc_wf.
  - by apply renew_wf.
Qed.
End promise_operations.

(* ===================================================================== *)
(** * nextResource *)
(* ===================================================================== *)

Section transition.
Implicit Types (σ : Heap) (storage : StorageRef) (target : Resource.t) (patch : Patch.t).

(** The resource that [nextResource] has assembled before it turns to the
    promise. *)
Lemma nextResource_unfold target patch storage σ :
  let n := length (promises σ) in
  let σ1 := (createResource VUndefined defaultStorage σ).2 in
  let result :=
    Resource.mk (Patch.loading patch) (Patch.data patch) (Patch.error patch)
      (if not_nullish (Patch.data patch) then Patch.data patch else VUndefined)
      (getResourceStateByData (ResourceLike.mk
         (Some (Patch.loading patch)) (Patch.data patch) (Patch.error patch)))
      (Some n) in
  nextResource target patch storage σ
  = if negb (eqb (Resource.loading target) (Patch.loading patch)) then
      if Patch.loading patch then renew storage result σ1
      else if defined (Patch.error patch) then (result, (reject storage result σ1).2)
      else (result, (resolve storage result σ1).2)
    else (Resource.set_promise (Resource.promise target) result, σ1).
Proof.
  destruct patch as [l d e]. unfold nextResource. run_M.
  rewrite createResource_undefined.
  cbn -[renew reject resolve getResourceStateByData allocPromise ResourceStorage.set].
  destruct (not_nullish d); cbn -[renew reject resolve getResourceStateByData
                                    allocPromise ResourceStorage.set];
    destruct (negb (eqb (Resource.loading target) l)); try done;
    destruct l; try done; by destruct (defined e).
Qed.

(** The core fields come from the patch; [latest] comes from the patch as
    well, and nothing of it from [target]. *)
Lemma nextResource_fields target patch storage σ :
  let r := (nextResource target patch storage σ).1 in
  Resource.loading r = Patch.loading patch
  ∧ Resource.data r = Patch.data patch
  ∧ Resource.error r = Patch.error patch
  ∧ Resource.latest r
    = (if not_nullish (Patch.data patch) then Patch.data patch else VUndefined)
  ∧ Resource.state r = getResourceStateByData (ResourceLike.mk
      (Some (Patch.loading patch)) (Patch.data patch) (Patch.error patch)).
Proof.
  cbn zeta. rewrite nextResource_unfold.
  destruct (negb _); [destruct (Patch.loading patch) eqn:Hl|]; cbn [fst].
  - rewrite renew_result. by rewrite <- Hl.
  - by destruct (defined _).
  - done.
Qed.

Lemma nextResource_consistent target patch storage σ :
  is_Some (Resource.promise target) →
  consistent (nextResource target patch storage σ).1.
Proof.
  intros Hp.
  pose proof (nextResource_fields target patch storage σ) as (Hl & Hd & He & _ & Hs).
  split.
  - rewrite Hs. unfold Resource.like. by rewrite Hl, Hd, He.
  - rewrite nextResource_unfold.
    destruct (negb _); [destruct (Patch.loading patch)|]; cbn [fst].
    + rewrite renew_result. cbn. eauto.
    + destruct (defined _); cbn; eauto.
    + done.
Qed.

(** The promise of the result: the one of [target] when [loading] is
    unchanged, a promise that did not exist before otherwise. *)
Lemma nextResource_promise target patch storage σ :
  let n := length (promises σ) in
  Resource.promise (nextResource target patch storage σ).1
  = if eqb (Resource.loading target) (Patch.loading patch)
    then Resource.promise target
    else Some (if Patch.loading patch then S n else n).
Proof.
  cbn zeta. rewrite nextResource_unfold.
  destruct (eqb _ _); cbn [negb]; [done|].
  destruct (Patch.loading patch); cbn [fst].
  - rewrite renew_result, createResource_undefined.
    unfold ResourceStorage.set, allocPromise.
    cbn [snd promises Resource.promise Resource.set_promise].
    rewrite length_app. cbn [length]. f_equal. lia.
  - by destruct (defined _).
Qed.

(** No promise that exists when [nextResource] is called is settled by
    it, and no storage entry of such a promise is added, changed or
    removed. *)
Lemma nextResource_same_at target patch storage σ q :
  heap_wf σ → (q < length (promises σ))%nat →
  same_at q σ (nextResource target patch storage σ).2.
Proof.
  intros Hwf Hq. rewrite nextResource_unfold.
  pose proof (createResource_same_at VUndefined defaultStorage σ q Hq) as H1.
  pose proof (createResource_wf VUndefined defaultStorage σ Hwf) as Hwf1.
  assert (Some (length (promises σ)) ≠ Some q) as Hne by (intros [= ?]; lia).
  eapply same_at_trans; [exact H1|].
  destruct (negb _); [|apply same_at_refl].
  destruct (Patch.loading patch); [|destruct (defined _)]; cbn [snd].
  - apply renew_same_at; [|done]. rewrite createResource_undefined.
    unfold ResourceStorage.set, allocPromise. cbn [snd promises].
    rewrite length_app. lia.
  - by apply reject_same_at.
  - by apply resolve_same_at.
Qed.

Lemma nextResource_wf target patch storage σ :
  heap_wf σ → heap_wf (nextResource target patch storage σ).2.
Proof.
  intros Hwf. rewrite nextResource_unfold.
  pose proof (createResource_wf VUndefined defaultStorage σ Hwf) as Hwf1.
  destruct (negb _); [|done].
  destruct (Patch.loading patch); [|destruct (defined _)]; cbn [snd].
  - by apply renew_wf.
  - by apply reject_wf.
  - by apply resolve_wf.
Qed.

(** Every call registers the promise of the resource that it creates on
    the way in the default storage; when [loading] is unchanged, that
    promise stays there, pending, and the result does not hold it. *)
Lemma nextResource_unchanged_loading target patch storage σ :
  Resource.loading target = Patch.loading patch →
  let n := length (promises σ) in
  let σ' := (nextResource target patch storage σ).2 in
  promises σ' = promises σ ++ [Pending]
  ∧ registry σ' defaultStorage !! n = Some (mkControls n n)
  ∧ (∀ s, s ≠ defaultStorage → registry σ' s = registry σ s).
Proof.
  intros Hl. cbn zeta. rewrite nextResource_unfold, Hl, eqb_reflx.
  cbn [negb snd]. rewrite createResource_undefined. cbn [snd]. split; [done|]. split.
  - rewrite registry_set, decide_True by done. apply lookup_insert_eq.
  - intros s Hs. by rewrite registry_set, decide_False.
Qed.

(** When [loading] goes from true to false with the default storage, the
    promise that is settled is the one created on the way in, and it is
    [data] that it is rejected or resolved with. *)
Lemma nextResource_settles_new target patch σ :
  heap_wf σ → Resource.loading target = true → Patch.loading patch = false →
  let n := length (promises σ) in
  let σ' := (nextResource target patch defaultStorage σ).2 in
  promises σ' !! n
  = Some (if defined (Patch.error patch) then Rejected (Patch.data patch)
          else resolution n (Patch.data patch))
  ∧ registry σ' defaultStorage !! n = None.
Proof.
  intros Hwf Ht Hl. cbn zeta. rewrite nextResource_unfold, Ht, Hl. cbn [eqb negb].
  set (result := Resource.mk _ _ _ _ _ _).
  assert (registry (createResource VUndefined defaultStorage σ).2 defaultStorage
            !! length (promises σ)
          = Some (mkControls (length (promises σ)) (length (promises σ)))) as Hreg.
  { rewrite createResource_undefined. cbn [snd].
    rewrite registry_set, decide_True by done. apply lookup_insert_eq. }
  assert (promises (createResource VUndefined defaultStorage σ).2
            !! length (promises σ) = Some Pending) as Hpend.
  { rewrite createResource_undefined. cbn. by rewrite lookup_app_r, Nat.sub_diag. }
  destruct (defined _); cbn [snd].
  - by apply (reject_registered defaultStorage result).
  - by apply (resolve_registered defaultStorage result).
Qed.
End transition.

(* ===================================================================== *)
(** * The transition law by law *)
(* ===================================================================== *)

Section transition_laws.
Implicit Types (σ : Heap) (storage : StorageRef) (target : Resource.t) (patch : Patch.t).

(** A patch that repeats the fields of a consistent resource gives back
    the same fields, the same state and the same promise reference. *)
Lemma nextResource_same_fields target storage σ :
  consistent target →
  let r := (nextResource target (fields target) storage σ).1 in
  fields r = fields target
  ∧ Resource.state r = Resource.state target
  ∧ Resource.promise r = Resource.promise target.
Proof.
  intros [Hs _]. cbn zeta.
  pose proof (nextResource_fields target (fields target) storage σ)
    as (Hl & Hd & He & _ & Hst).
  pose proof (nextResource_promise target (fields target) storage σ) as Hp.
  set (r := (nextResource target (fields target) storage σ).1) in *.
  cbn [fields Patch.loading Patch.data Patch.error] in Hl, Hd, He, Hst, Hp.
  rewrite eqb_reflx in Hp. repeat split; [|by rewrite Hst, Hs|done].
  unfold fields. by rewrite Hl, Hd, He.
Qed.

(** The promise reference changes exactly when [loading] changes, in
    either direction. *)
Lemma nextResource_promise_changes target patch storage σ :
  promise_allocated σ target →
  Resource.promise (nextResource target patch storage σ).1 ≠ Resource.promise target
  ↔ Resource.loading target ≠ Patch.loading patch.
Proof.
  intros (p & Hp & Hlt). rewrite nextResource_promise, Hp.
  destruct (Resource.loading target), (Patch.loading patch); cbn [eqb];
    split; try done; intros _ [= ?]; lia.
Qed.

(** C2, on a pending resource that is resolved with ["x"]: the promise of
    the pending resource (number 2) is the one a consumer awaits.  The
    result carries another promise (number 3), which is the one that is
    fulfilled; promise 2 stays pending and stays registered. *)
Theorem nextResource_resolve_settles_other_promise :
  let target := run_pending.1 in
  let out := nextResource target (Patch.mk false (VStr "x") VUndefined)
               defaultStorage run_pending.2 in
  Resource.loading target = true
  ∧ Resource.promise target = Some 2%nat
  ∧ promises run_pending.2 !! 2%nat = Some Pending
  ∧ registry run_pending.2 defaultStorage !! 2%nat = Some (mkControls 2 2)
  ∧ Resource.promise out.1 = Some 3%nat
  ∧ promises out.2 !! 3%nat = Some (Fulfilled (VStr "x"))
  ∧ promises out.2 !! 2%nat = Some Pending
  ∧ registry out.2 defaultStorage !! 2%nat = Some (mkControls 2 2).
Proof. vm_compute. repeat split. Qed.

(** C3, on a ready resource whose [latest] is ["x"], advanced with
    [{ loading: true }]: [latest] is not carried over, the result has
    none. *)
Theorem nextResource_forgets_latest :
  Resource.latest run_ready.1 = VStr "x"
  ∧ Resource.latest (nextResource run_ready.1 (Patch.mk true VUndefined VUndefined)
                       defaultStorage run_ready.2).1 = VUndefined.
Proof. vm_compute. by split. Qed.

(** C5, on a pending resource that is rejected with ["test2"]: the promise
    that is rejected is the new promise 3, and the reason is [data], which
    is undefined here, not the error; promise 2 of the pending resource
    stays pending and registered. *)
Theorem nextResource_reject_passes_data :
  let out := nextResource run_pending.1 (Patch.mk false VUndefined (VStr "test2"))
               defaultStorage run_pending.2 in
  Resource.promise run_pending.1 = Some 2%nat
  ∧ Resource.error out.1 = VStr "test2"
  ∧ Resource.promise out.1 = Some 3%nat
  ∧ promises out.2 !! 3%nat = Some (Rejected VUndefined)
  ∧ promises out.2 !! 2%nat = Some Pending
  ∧ registry out.2 defaultStorage !! 2%nat = Some (mkControls 2 2).
Proof. vm_compute. repeat split. Qed.

(** A rejection with a nullish reason, dispatched on a resource that loads:
    the error of the result is the wrapper around the reason and the state
    is [errored]; the promise of the result is rejected, and the reason of
    that rejection is [data], which the patch has cleared. *)
Lemma dispatchReject_nullish target (reason : Value) σ :
  heap_wf σ → Resource.loading target = true → not_nullish reason = false →
  let out := dispatchReject target reason σ in
  Resource.state out.1 = errored
  ∧ Resource.error out.1 = VNullishError reason
  ∧ Resource.promise out.1 = Some (length (promises σ))
  ∧ promises out.2 !! length (promises σ) = Some (Rejected VUndefined).
Proof.
  intros Hwf Ht Hn. cbn zeta. unfold dispatchReject, rejectPatch. rewrite Hn.
  set (patch := Patch.mk false VUndefined (VNullishError reason)).
  pose proof (nextResource_fields target patch defaultStorage σ) as (_ & _ & He & _ & Hs).
  destruct (nextResource_settles_new target patch σ Hwf Ht eq_refl) as [Hp _].
  split; [by rewrite Hs|]. split; [done|]. split; [|done].
  by rewrite nextResource_promise, Ht.
Qed.

(** C6, on the pending resource, with the rejection [null] dispatched as in
    the test of the nullish rejects: the error is the wrapper that retains
    null and the state is [errored], as the claim says; but the promise of
    the resource (number 3) is rejected with [data], which is undefined: a
    bare nullish reason. *)
Theorem dispatchReject_null_promise_reason :
  let out := dispatchReject run_pending.1 VNull run_pending.2 in
  let out' := dispatchReject run_pending.1 VUndefined run_pending.2 in
  Resource.loading run_pending.1 = true
  ∧ Resource.state out.1 = errored
  ∧ Resource.error out.1 = VNullishError VNull
  ∧ not_nullish (Resource.error out.1) = true
  ∧ Resource.promise out.1 = Some 3%nat
  ∧ promises out.2 !! 3%nat = Some (Rejected VUndefined)
  ∧ Resource.error out'.1 = VNullishError VUndefined
  ∧ promises out'.2 !! 3%nat = Some (Rejected VUndefined)
  ∧ not_nullish VUndefined = false.
Proof. vm_compute. repeat split. Qed.

(** C7, on the ready resource patched with its own fields: state and
    promise are the same, and yet the default storage has a new entry,
    for a promise 4 that is pending and that the result does not hold. *)
Theorem nextResource_same_patch_registers_promise :
  let target := run_ready.1 in
  let out := nextResource target (fields target) defaultStorage run_ready.2 in
  Resource.state out.1 = Resource.state target
  ∧ Resource.promise out.1 = Resource.promise target
  ∧ Resource.promise target = Some 3%nat
  ∧ registry run_ready.2 defaultStorage !! 4%nat = None
  ∧ registry out.2 defaultStorage !! 4%nat = Some (mkControls 4 4)
  ∧ promises out.2 !! 4%nat = Some Pending.
Proof. vm_compute. repeat split. Qed.
End transition_laws.

(* ===================================================================== *)
(** * The transition on the cases of the test suite *)
(* ===================================================================== *)

Section test_cases.
(** "correctly updates core data" *)
Example updates_core_data :
  let res := (nextResource run_create.1 (Patch.mk true (VStr "test1") (VStr "test2"))
                defaultStorage run_create.2).1 in
  Resource.data res = VStr "test1" ∧ Resource.loading res = true
  ∧ Resource.error res = VStr "test2".
Proof. vm_compute. repeat split. Qed.

(** "updates resource state name" *)
Example updates_state_name :
  Resource.state run_pending.1 = pending
  ∧ Resource.state (nextResource run_pending.1 (Patch.mk false (VStr "test") VUndefined)
                     defaultStorage run_pending.2).1 = ready.
Proof. vm_compute. by split. Qed.

(** "keeps the same promise if loading state keeps to be false" *)
Example keeps_promise_while_not_loading :
  let first := nextResource run_create.1 (Patch.mk false VUndefined VUndefined)
                 defaultStorage run_create.2 in
  let second := nextResource first.1 (Patch.mk false (VStr "test") VUndefined)
                  defaultStorage first.2 in
  Resource.promise second.1 = Resource.promise first.1.
Proof. reflexivity. Qed.

(** "resolves the promise, if advanced from loaded state with data": the
    promise of the result is fulfilled with the data. *)
Example result_promise_resolved :
  ∃ p, Resource.promise run_ready.1 = Some p
       ∧ promises run_ready.2 !! p = Some (Fulfilled (VStr "x")).
Proof. exists 3%nat. vm_compute. by split. Qed.

(** A resource made from a promise is pending, one made from a value is
    ready at once with a promise that is already fulfilled. *)
Example createResource_from_promise :
  let res := createResource (VPromise 0) defaultStorage (allocPromise Pending emptyHeap).2 in
  Resource.state res.1 = pending ∧ Resource.loading res.1 = true
  ∧ Resource.promise res.1 = Some 1%nat ∧ promises res.2 !! 1%nat = Some Pending.
Proof. vm_compute. repeat split. Qed.

Example createResource_from_value :
  let res := createResource (VBool true) defaultStorage emptyHeap in
  Resource.state res.1 = ready ∧ Resource.data res.1 = VBool true
  ∧ promises res.2 = [Fulfilled (VBool true)] ∧ registry res.2 defaultStorage = ∅.
Proof. vm_compute. repeat split. Qed.

(** With a storage of its own, as in "rejects the promise, if advanced from
    loaded state with data": the resource that [nextResource] creates on the
    way in registers its promise in the default storage, [reject] looks it
    up in the storage it was given, finds nothing, and no promise is
    settled. *)
Example own_storage_nothing_settled :
  let storage := 1%nat in
  let created := createResource VUndefined storage emptyHeap in
  let loading := nextResource created.1 (Patch.mk true VUndefined VUndefined)
                   storage created.2 in
  let out := nextResource loading.1 (Patch.mk false VUndefined (VStr "test2"))
               storage loading.2 in
  Resource.promise out.1 = Some 3%nat
  ∧ promises out.2 = [Pending; Pending; Pending; Pending]
  ∧ (ResourceStorage.has storage 3%nat out.2).1 = false
  ∧ (ResourceStorage.has defaultStorage 3%nat out.2).1 = true.
Proof. vm_compute. repeat split. Qed.

(** Data that is a promise: the promise of the result is resolved with it,
    so it follows that promise and is not fulfilled. *)
Example result_promise_follows_promise_data :
  let out := nextResource run_pending.1 (Patch.mk false (VPromise 0) VUndefined)
               defaultStorage run_pending.2 in
  Resource.promise out.1 = Some 3%nat
  ∧ promises out.2 !! 3%nat = Some (Following 0).
Proof. vm_compute. by split. Qed.
End test_cases.

(* ===================================================================== *)
(** * The accessor *)
(* ===================================================================== *)

Section accessor.
Implicit Types (σ : Heap) (r : Resource.t).

Lemma defined_false v : defined v = false → v = VUndefined.
Proof. by destruct v. Qed.

(** The state of a consistent resource, read off its fields. *)
Lemma consistent_state r :
  consistent r →
  Resource.state r
  = if Resource.loading r then
      (if defined (Resource.data r) then refreshing else pending)
    else if defined (Resource.error r) then errored
    else if truthy (Resource.data r) then ready else unresolved.
Proof.
  intros [-> _]. classify. unfold Resource.like.
  cbn [ResourceLike.data ResourceLike.loading ResourceLike.error truthy_flag default].
  destruct (Resource.loading r); [|by rewrite andb_false_r].
  by rewrite andb_true_r.
Qed.

(** While the resource loads, the accessor throws its promise. *)
Lemma accessor_loading r σ :
  consistent r → Resource.state r = pending ∨ Resource.state r = refreshing →
  ∃ p, Resource.promise r = Some p ∧ accessor r σ = (Throw (VPromise p), σ).
Proof.
  intros Hc Hst. rewrite (consistent_state r Hc) in Hst.
  destruct Hc as [_ [p Hp]]. exists p. split; [done|].
  unfold accessor. rewrite Hp.
  destruct (Resource.loading r); [done|].
  destruct (defined _), (truthy _), Hst; discriminate.
Qed.

Lemma accessor_ready r σ :
  consistent r → Resource.state r = ready →
  accessor r σ = (Return (Resource.data r), σ).
Proof.
  intros Hc Hst. rewrite (consistent_state r Hc) in Hst. unfold accessor.
  destruct (Resource.loading r); [by destruct (defined _)|].
  destruct (defined (Resource.error r)) eqn:He; [done|].
  apply defined_false in He. by rewrite He.
Qed.

(** In the state [errored] the error is thrown when it is truthy; a
    falsy error is passed over and [data] is returned. *)
Lemma accessor_errored r σ :
  consistent r → Resource.state r = errored →
  accessor r σ
  = (if truthy (Resource.error r) then Throw (Resource.error r)
     else Return (Resource.data r), σ).
Proof.
  intros Hc Hst. rewrite (consistent_state r Hc) in Hst. unfold accessor.
  destruct (Resource.loading r); [by destruct (defined _)|].
  by destruct (truthy (Resource.error r)).
Qed.

(** C9, on a resource that was rejected with the reason [false]: its
    state is [errored], and the accessor returns [data], which is
    undefined, and throws nothing. *)
Theorem accessor_skips_falsy_error :
  let out := nextResource run_pending.1 (Patch.mk false VUndefined (VBool false))
               defaultStorage run_pending.2 in
  Resource.state out.1 = errored
  ∧ Resource.error out.1 = VBool false
  ∧ (accessor out.1 out.2).1 = Return VUndefined.
Proof. vm_compute. repeat split. Qed.
End accessor.

(* ===================================================================== *)
(** * The race guard of useAsyncState *)
(* ===================================================================== *)

Section race_guard.
Variable reducer : AsyncState.t → Action → M AsyncState.t.
Variable opts : UseAsyncStateOpts.
Implicit Types (h : Hook.t) (σ : Heap) (p val : PromiseRef) (o : Settlement).

Local Abbreviation dispatch := (useAsyncState.dispatch reducer).
Local Abbreviation invoke := useAsyncState.invoke.
Local Abbreviation asynHandler_catch := (useAsyncState.asynHandler_catch reducer opts).
Local Abbreviation asynHandler_resume := (useAsyncState.asynHandler_resume reducer opts).
Local Abbreviation resume_all := (useAsyncState.resume_all reducer opts).
Local Abbreviation settled := (useAsyncState.settled reducer opts).
Local Abbreviation run := (useAsyncState.run reducer opts).

(** Dispatching and reporting leave the ref and the suspended handlers
    alone, and do not look at the suspended handlers. *)
Lemma dispatch_set_awaiting a l h σ :
  dispatch a (Hook.set_awaiting l h) σ
  = (Hook.set_awaiting l (dispatch a h σ).1, (dispatch a h σ).2).
Proof. reflexivity. Qed.

Lemma dispatch_lastPrms a h σ : Hook.lastPrms (dispatch a h σ).1 = Hook.lastPrms h.
Proof. reflexivity. Qed.

Lemma invoke_set_awaiting cb c arg l h σ :
  invoke cb c arg (Hook.set_awaiting l h) σ
  = ((Hook.set_awaiting l (invoke cb c arg h σ).1.1, (invoke cb c arg h σ).1.2),
     (invoke cb c arg h σ).2).
Proof. by destruct cb. Qed.

Lemma invoke_lastPrms cb c arg h σ :
  Hook.lastPrms (invoke cb c arg h σ).1.1 = Hook.lastPrms h.
Proof. by destruct cb. Qed.

Lemma apply_settlement_set_awaiting o l h σ :
  apply_settlement reducer opts o (Hook.set_awaiting l h) σ
  = (Hook.set_awaiting l (apply_settlement reducer opts o h σ).1,
     (apply_settlement reducer opts o h σ).2).
Proof.
  unfold apply_settlement. destruct o as [data|err]; run_M.
  - rewrite dispatch_set_awaiting. cbn [fst snd].
    rewrite invoke_set_awaiting. cbn [fst snd].
    destruct (invoke _ _ _ _ _).1.2; [|done].
    rewrite dispatch_set_awaiting. cbn [fst snd].
    by rewrite invoke_set_awaiting.
  - rewrite dispatch_set_awaiting. cbn [fst snd].
    by rewrite invoke_set_awaiting.
Qed.

Lemma apply_settlement_lastPrms o h σ :
  Hook.lastPrms (apply_settlement reducer opts o h σ).1 = Hook.lastPrms h.
Proof.
  unfold apply_settlement. destruct o as [data|err]; run_M.
  - destruct (invoke _ _ _ _ _).1.2; cbn [fst snd];
      by repeat (rewrite invoke_lastPrms || rewrite dispatch_lastPrms).
  - cbn [fst snd]. by rewrite invoke_lastPrms.
Qed.

(** The guard.  A handler whose promise is not the last one that was set
    does nothing when it resumes. *)
Lemma asynHandler_resume_stale val o h σ :
  Hook.lastPrms h ≠ Some val → asynHandler_resume val o h σ = (h, σ).
Proof.
  intros Hstale. unfold useAsyncState.asynHandler_resume, useAsyncState.asynHandler_catch.
  destruct o; by rewrite decide_False.
Qed.

(** A handler whose promise is the last one that was set applies the
    settlement. *)
Lemma asynHandler_resume_current val o h σ :
  Hook.lastPrms h = Some val →
  asynHandler_resume val o h σ = apply_settlement reducer opts o h σ.
Proof.
  intros Hcur. unfold useAsyncState.asynHandler_resume, apply_settlement.
  destruct o as [data|err].
  - rewrite decide_True by done. run_M.
    destruct (invoke _ _ _ _ _).1.2; [|done].
    unfold useAsyncState.asynHandler_catch.
    rewrite decide_True; [done|]. by rewrite invoke_lastPrms.
  - unfold useAsyncState.asynHandler_catch. by rewrite decide_True.
Qed.

Lemma resume_all_stale val o n h σ :
  Hook.lastPrms h ≠ Some val → resume_all val o n h σ = (h, σ).
Proof.
  intros Hstale. induction n as [|n IH]; [done|].
  cbn [useAsyncState.resume_all]. run_M.
  by rewrite asynHandler_resume_stale.
Qed.

(** The settlement of a promise that is not the last one that was set
    changes nothing but the list of suspended handlers. *)
Lemma settled_stale val o h σ :
  Hook.lastPrms h ≠ Some val →
  settled val o h σ
  = (Hook.set_awaiting (filter (λ q, q ≠ val) (Hook.awaiting h)) h, σ).
Proof. intros Hstale. unfold useAsyncState.settled. by apply resume_all_stale. Qed.

(** The settlement of the last promise that was set, awaited by one
    handler, is applied. *)
Lemma settled_current val o h σ :
  Hook.lastPrms h = Some val →
  length (filter (λ q, q = val) (Hook.awaiting h)) = 1%nat →
  settled val o h σ
  = (Hook.set_awaiting (filter (λ q, q ≠ val) (Hook.awaiting h))
       (apply_settlement reducer opts o h σ).1,
     (apply_settlement reducer opts o h σ).2).
Proof.
  intros Hcur Hone. unfold useAsyncState.settled. rewrite Hone.
  cbn [useAsyncState.resume_all]. run_M.
  rewrite asynHandler_resume_current by done.
  by rewrite apply_settlement_set_awaiting.
Qed.

(** [set] with a promise makes it the last one; [set] with any other
    value leaves the ref as it is. *)
Lemma set_promise_lastPrms p h σ :
  Hook.lastPrms (useAsyncState.set reducer (VPromise p) h σ).1 = Some p.
Proof. reflexivity. Qed.

Lemma set_value_lastPrms (v : Value) h σ :
  instanceofPromise v = false →
  Hook.lastPrms (useAsyncState.set reducer v h σ).1 = Hook.lastPrms h.
Proof. by destruct v. Qed.

Lemma set_promise_awaiting p h σ :
  Hook.awaiting (useAsyncState.set reducer (VPromise p) h σ).1 = Hook.awaiting h ++ [p].
Proof. reflexivity. Qed.

Lemma set_value_awaiting (v : Value) h σ :
  instanceofPromise v = false →
  Hook.awaiting (useAsyncState.set reducer v h σ).1 = Hook.awaiting h.
Proof. by destruct v. Qed.

Lemma run_app h es1 es2 σ :
  run h (es1 ++ es2) σ = run (run h es1 σ).1 es2 (run h es1 σ).2.
Proof.
  revert h σ. induction es1 as [|e es1 IH]; intros h σ; [done|].
  cbn [app useAsyncState.run]. run_M. apply IH.
Qed.

Lemma filter_eq_absent p (l : list PromiseRef) :
  p ∉ l → filter (λ q, q = p) l = [].
Proof.
  induction l as [|x l IH]; [done|].
  intros [Hx Hl]%not_elem_of_cons. rewrite filter_cons_False by done. by apply IH.
Qed.

(** Two calls of [set] with promises, one after the other: the second
    promise is the last one, and both handlers are suspended. *)
Lemma issued_twice h σ p1 p2 :
  let issued := run h [Set_ (VPromise p1); Set_ (VPromise p2)] σ in
  Hook.lastPrms issued.1 = Some p2
  ∧ Hook.awaiting issued.1 = Hook.awaiting h ++ [p1; p2].
Proof.
  cbn zeta. split; [reflexivity|].
  transitivity ((Hook.awaiting h ++ [p1]) ++ [p2]); [reflexivity|].
  by rewrite <- app_assoc.
Qed.

Lemma awaiting_second_once p1 p2 (l : list PromiseRef) :
  p1 ≠ p2 → p2 ∉ l →
  length (filter (λ q, q = p2) (l ++ [p1; p2])) = 1%nat
  ∧ length (filter (λ q, q = p2) (filter (λ q, q ≠ p1) (l ++ [p1; p2]))) = 1%nat.
Proof.
  intros Hne Hl. split.
  - rewrite filter_app, filter_eq_absent by done.
    rewrite filter_cons_False by done. by rewrite filter_cons_True.
  - rewrite !filter_app, filter_eq_absent.
    + rewrite filter_cons_False by (intros Hp; by apply Hp).
      rewrite filter_cons_True by congruence.
      rewrite filter_nil. by rewrite filter_cons_True.
    + intros [_ ?]%list_elem_of_filter. done.
Qed.

(** C4: two calls of [set] with the promises [p1] and then [p2], issued
    before either settles.  The settlement of [p1] alone changes nothing
    that can be observed, and in both orders of settlement what is
    observed in the end is the settlement of [p2] applied to the instance
    as the two calls left it: the guard compares the promise of the
    handler with the last promise that was set. *)
Theorem race_guard_last_issued_wins h σ p1 p2 o1 o2 :
  p1 ≠ p2 → p2 ∉ Hook.awaiting h →
  let issue := [Set_ (VPromise p1); Set_ (VPromise p2)] in
  let issued := run h issue σ in
  let applied := apply_settlement reducer opts o2 issued.1 issued.2 in
  observe (run h (issue ++ [Settled p1 o1]) σ) = observe issued
  ∧ observe (run h (issue ++ [Settled p1 o1; Settled p2 o2]) σ) = observe applied
  ∧ observe (run h (issue ++ [Settled p2 o2; Settled p1 o1]) σ) = observe applied.
Proof.
  intros Hne Hfresh. cbn zeta. rewrite !run_app.
  destruct (issued_twice h σ p1 p2) as [Hlast Haw].
  destruct (awaiting_second_once p1 p2 (Hook.awaiting h) Hne Hfresh) as [Hone Hone'].
  set (issued := run h [Set_ (VPromise p1); Set_ (VPromise p2)] σ) in *.
  assert (Hook.lastPrms issued.1 ≠ Some p1) as Hstale by (rewrite Hlast; congruence).
  cbn [useAsyncState.run useAsyncState.step]. run_M.
  rewrite !(settled_stale p1 o1 issued.1) by done. cbn [fst snd].
  split; [done|]. split.
  - rewrite settled_current;
      [|exact Hlast|cbn [Hook.awaiting Hook.set_awaiting]; rewrite Haw; exact Hone'].
    rewrite apply_settlement_set_awaiting. reflexivity.
  - rewrite (settled_current p2 o2 issued.1); [|exact Hlast|rewrite Haw; exact Hone].
    cbn [fst snd].
    rewrite settled_stale; [reflexivity|].
    cbn [Hook.lastPrms Hook.set_awaiting].
    rewrite apply_settlement_lastPrms, Hlast. congruence.
Qed.

(** A call of [set] with a value that is not a promise, while [p] is the
    last promise that was set: the ref still holds [p], so the settlement
    of [p] passes the guard and is applied over the value. *)
Lemma settlement_after_value_applied h σ p (v : Value) o :
  instanceofPromise v = false → p ∉ Hook.awaiting h →
  let mutated := run h [Set_ (VPromise p); Set_ v] σ in
  Hook.lastPrms mutated.1 = Some p
  ∧ observe (run h ([Set_ (VPromise p); Set_ v] ++ [Settled p o]) σ)
    = observe (apply_settlement reducer opts o mutated.1 mutated.2).
Proof.
  intros Hv Hfresh. cbn zeta. rewrite run_app.
  set (mutated := run h [Set_ (VPromise p); Set_ v] σ).
  set (first := useAsyncState.set reducer (VPromise p) h σ).
  assert (mutated.1 = (useAsyncState.set reducer v first.1 first.2).1) as Hm
    by reflexivity.
  assert (Hook.lastPrms mutated.1 = Some p) as Hlast.
  { by rewrite Hm, set_value_lastPrms. }
  assert (Hook.awaiting mutated.1 = Hook.awaiting h ++ [p]) as Haw.
  { by rewrite Hm, set_value_awaiting. }
  split; [done|].
  cbn [useAsyncState.run useAsyncState.step]. run_M.
  rewrite settled_current; [reflexivity|done|].
  rewrite Haw, filter_app, filter_eq_absent by done.
  by rewrite filter_cons_True.
Qed.
End race_guard.

Lemma race_guard_last_issued_wins_witness :
  let run := useAsyncState.run asyncStateReducer returning_callbacks in
  let issue := [Set_ (VPromise 1); Set_ (VPromise 2)] in
  let issued := run idle issue emptyHeap in
  let applied :=
    apply_settlement asyncStateReducer returning_callbacks (Rejects (VStr "b"))
      issued.1 issued.2 in
  (1 ≠ 2)%nat ∧ (2%nat ∉ Hook.awaiting idle)
  ∧ observe (run idle (issue ++ [Settled 1 (Fulfils (VStr "a"))]) emptyHeap)
    = observe issued
  ∧ observe (run idle (issue ++ [Settled 1 (Fulfils (VStr "a"));
                                 Settled 2 (Rejects (VStr "b"))]) emptyHeap)
    = observe applied
  ∧ observe (run idle (issue ++ [Settled 2 (Rejects (VStr "b"));
                                 Settled 1 (Fulfils (VStr "a"))]) emptyHeap)
    = observe applied.
Proof.
  cbn zeta. split; [lia|]. split; [apply not_elem_of_nil|].
  apply (race_guard_last_issued_wins asyncStateReducer returning_callbacks idle emptyHeap
           1%nat 2%nat (Fulfils (VStr "a")) (Rejects (VStr "b")));
    [lia|apply not_elem_of_nil].
Defined.

(** What the race comes to with the reducer of the README: the error of the
    second call is in the model, the data of the first call is nowhere. *)
Example race_outcome :
  let final :=
    useAsyncState.run asyncStateReducer returning_callbacks idle
      [Set_ (VPromise 1); Set_ (VPromise 2);
       Settled 2 (Rejects (VStr "b")); Settled 1 (Fulfils (VStr "a"))] emptyHeap in
  Hook.state final.1 = AsyncState.mk false (VStr "b") VNull (Some 2%nat)
  ∧ Hook.calls final.1 = [CallOnError (VStr "b")].
Proof. vm_compute. by split. Qed.

(** C8, on a call with promise 7 in flight, followed by [set("x")], after
    which promise 7 fulfils with ["y"]: the value is in the model at first,
    but the ref still holds promise 7, so the settlement passes the guard,
    and the model ends with ["y"] and [onCompleted] is told so. *)
Theorem set_value_keeps_call_in_flight :
  let run := useAsyncState.run asyncStateReducer returning_callbacks in
  let mutated := run idle [Set_ (VPromise 7); Set_ (VStr "x")] emptyHeap in
  let final := run idle [Set_ (VPromise 7); Set_ (VStr "x");
                         Settled 7 (Fulfils (VStr "y"))] emptyHeap in
  AsyncState.loading (Hook.state mutated.1) = false
  ∧ AsyncState.result (Hook.state mutated.1) = VStr "x"
  ∧ Hook.lastPrms mutated.1 = Some 7%nat
  ∧ AsyncState.result (Hook.state final.1) = VStr "y"
  ∧ Hook.calls final.1 = [CallOnCompleted (VStr "y")].
Proof. vm_compute. repeat split. Qed.

(* ===================================================================== *)
(** * Further properties of the classification and of createResource *)
(* ===================================================================== *)

Section more_on_resources.
Implicit Types (σ : Heap) (storage : StorageRef) (res target : Resource.t) (patch : Patch.t).

(** X1: the classification read backwards.  Each state tells what the
    fields are: [refreshing] and [pending] mean loading, with [data]
    defined or undefined; [errored] means not loading with a defined error;
    [ready] and [unresolved] mean not loading, no error, and [data] truthy
    or falsy. *)
Theorem classify_inversion (i : ResourceLike.t) :
  let loading := truthy_flag (ResourceLike.loading i) in
  let data := ResourceLike.data i in
  let error := ResourceLike.error i in
  match getResourceStateByData i with
  | refreshing => loading = true ∧ defined data = true
  | pending => loading = true ∧ data = VUndefined
  | errored => loading = false ∧ defined error = true
  | ready => loading = false ∧ error = VUndefined ∧ truthy data = true
  | unresolved => loading = false ∧ error = VUndefined ∧ truthy data = false
  end.
Proof.
  destruct i as [l d e]. cbn zeta. classify.
  destruct (truthy_flag l).
  - rewrite andb_true_r. destruct (defined d) eqn:Hd; [done|].
    split; [done|]. by apply defined_false.
  - rewrite andb_false_r. destruct (defined e) eqn:He; [done|].
    apply defined_false in He. by destruct (truthy d).
Qed.

Lemma createResource_promise (data : Value) storage σ :
  Resource.promise (createResource data storage σ).1 = Some (length (promises σ)).
Proof.
  unfold createResource. run_M.
  destruct (instanceofPromise data); [|destruct (defined data)];
    cbn [fst snd]; by rewrite ?renew_result.
Qed.

(** X2: the promise of a new resource.  It is always a promise that did not
    exist before.  For a promise argument and for no argument it is pending
    and registered in the given storage under its own controls; for a value
    it is already fulfilled with the value and no storage is touched.  The
    resource loads exactly when the argument is a promise, and then holds
    no data. *)
Theorem createResource_promise_status (data : Value) storage σ :
  let out := createResource data storage σ in
  let n := length (promises σ) in
  let deferred := instanceofPromise data || negb (defined data) in
  Resource.promise out.1 = Some n
  ∧ promises out.2
    = promises σ ++ [if deferred then Pending else Fulfilled data]
  ∧ (if deferred then registry out.2 storage !! n = Some (mkControls n n)
     else storages out.2 = storages σ)
  ∧ Resource.loading out.1 = instanceofPromise data
  ∧ Resource.data out.1 = (if instanceofPromise data then VUndefined else data)
  ∧ Resource.error out.1 = VUndefined
  ∧ Resource.latest out.1 = VUndefined.
Proof.
  cbn zeta. unfold createResource. run_M.
  destruct (instanceofPromise data); [|destruct (defined data)];
    cbn [orb negb fst snd]; rewrite ?renew_result, ?renew_promises;
    repeat split; try apply (renew_registered storage).
Qed.

(** X3: creating a resource leaves every promise that exists alone, the
    promise it is given included: none is settled, none gains or loses a
    storage entry, and none becomes the promise of the new resource. *)
Theorem createResource_existing_untouched (data : Value) storage σ (q : PromiseRef) :
  (q < length (promises σ))%nat →
  let out := createResource data storage σ in
  promises out.2 !! q = promises σ !! q
  ∧ (∀ s, registry out.2 s !! q = registry σ s !! q)
  ∧ Resource.promise out.1 ≠ Some q.
Proof.
  intros Hq. cbn zeta.
  destruct (createResource_same_at data storage σ q Hq) as [Hp Hr].
  split; [done|]. split; [done|].
  rewrite createResource_promise. intros [= ?]. lia.
Qed.

Lemma createResource_existing_untouched_witness :
  let σ := (allocPromise Pending emptyHeap).2 in
  let out := createResource (VPromise 0) defaultStorage σ in
  (0 < length (promises σ))%nat
  ∧ promises out.2 !! 0%nat = promises σ !! 0%nat
  ∧ (∀ s, registry out.2 s !! 0%nat = registry σ s !! 0%nat)
  ∧ Resource.promise out.1 ≠ Some 0%nat.
Proof.
  cbn zeta. split; [cbn; lia|].
  apply (createResource_existing_untouched (VPromise 0) defaultStorage
           (allocPromise Pending emptyHeap).2 0%nat).
  cbn. lia.
Defined.
End more_on_resources.

(* ===================================================================== *)
(** * Further properties of renew, resolve and reject *)
(* ===================================================================== *)

Section more_on_promises.
Implicit Types (σ : Heap) (storage : StorageRef) (res : Resource.t) (p old : PromiseRef).

Lemma alloc_registry st σ s : registry (allocPromise st σ).2 s = registry σ s.
Proof. reflexivity. Qed.

(** X4: [renew] swaps the registration.  The resource gets a promise that
    did not exist, pending and registered under its own controls; the entry
    of the promise it had is removed from the storage, and that promise is
    not settled: it stays in the state it was in. *)
Theorem renew_replaces_registration storage res σ old :
  Resource.promise res = Some old → (old < length (promises σ))%nat →
  let out := renew storage res σ in
  let n := length (promises σ) in
  Resource.promise out.1 = Some n
  ∧ promises out.2 !! n = Some Pending
  ∧ registry out.2 storage !! n = Some (mkControls n n)
  ∧ registry out.2 storage !! old = None
  ∧ promises out.2 !! old = promises σ !! old.
Proof.
  intros Hold Hlt. cbn zeta. rewrite renew_result, renew_promises.
  split; [done|]. split.
  { by rewrite lookup_app_r, Nat.sub_diag. }
  split; [apply renew_registered|]. split.
  - unfold renew. rewrite Hold. run_M. cbn [fst snd].
    rewrite registry_set, decide_True by done.
    rewrite lookup_insert_ne by (cbn; lia).
    rewrite alloc_registry, registry_delete, decide_True by done.
    apply lookup_delete_eq.
  - by rewrite lookup_app_l.
Qed.

Lemma renew_replaces_registration_witness :
  let out := renew defaultStorage run_create.1 run_create.2 in
  Resource.promise run_create.1 = Some 0%nat
  ∧ (0 < length (promises run_create.2))%nat
  ∧ Resource.promise out.1 = Some 1%nat
  ∧ promises out.2 !! 1%nat = Some Pending
  ∧ registry out.2 defaultStorage !! 1%nat = Some (mkControls 1 1)
  ∧ registry out.2 defaultStorage !! 0%nat = None
  ∧ promises out.2 !! 0%nat = promises run_create.2 !! 0%nat.
Proof.
  cbn zeta. split; [reflexivity|]. split; [vm_compute; lia|].
  apply (renew_replaces_registration defaultStorage run_create.1 run_create.2 0%nat);
    [reflexivity|vm_compute; lia].
Defined.



Lemma resolution_value p (v : Value) :
  instanceofPromise v = false → resolution p v = Fulfilled v.
Proof. by destruct v. Qed.

(** X6: a promise is resolved once through its storage.  After [resolve]
    on a registered, pending promise, the promise is resolved with the data
    of the resource, which fulfils it unless the data is a promise, and
    its entry is gone; a later [resolve] or [reject] for the same promise,
    with whatever data, changes no promise. *)
Theorem resolve_settles_once storage res res' σ p :
  Resource.promise res = Some p → Resource.promise res' = Some p →
  registry σ storage !! p = Some (mkControls p p) →
  promises σ !! p = Some Pending →
  let σ1 := (resolve storage res σ).2 in
  promises σ1 !! p = Some (resolution p (Resource.data res))
  ∧ (instanceofPromise (Resource.data res) = false →
     promises σ1 !! p = Some (Fulfilled (Resource.data res)))
  ∧ registry σ1 storage !! p = None
  ∧ promises (resolve storage res' σ1).2 = promises σ1
  ∧ promises (reject storage res' σ1).2 = promises σ1.
Proof.
  intros Hp Hp' Hreg Hpend. cbn zeta.
  destruct (resolve_registered storage res σ p Hp Hreg Hpend) as [Hdone Hgone].
  split; [done|]. split; [intros Hv; by rewrite Hdone, resolution_value|].
  split; [done|]. split.
  - by apply (resolve_unregistered storage res' _ p).
  - by apply (reject_unregistered storage res' _ p).
Qed.

Lemma resolve_settles_once_witness :
  let res := Resource.set_data (VStr "first") run_create.1 in
  let res' := Resource.set_data (VStr "second") run_create.1 in
  let σ1 := (resolve defaultStorage res run_create.2).2 in
  Resource.promise res = Some 0%nat ∧ Resource.promise res' = Some 0%nat
  ∧ registry run_create.2 defaultStorage !! 0%nat = Some (mkControls 0 0)
  ∧ promises run_create.2 !! 0%nat = Some Pending
  ∧ promises σ1 !! 0%nat = Some (resolution 0 (VStr "first"))
  ∧ (instanceofPromise (VStr "first") = false →
     promises σ1 !! 0%nat = Some (Fulfilled (VStr "first")))
  ∧ registry σ1 defaultStorage !! 0%nat = None
  ∧ promises (resolve defaultStorage res' σ1).2 = promises σ1
  ∧ promises (reject defaultStorage res' σ1).2 = promises σ1.
Proof.
  cbn zeta. do 4 (split; [reflexivity|]).
  apply (resolve_settles_once defaultStorage
           (Resource.set_data (VStr "first") run_create.1)
           (Resource.set_data (VStr "second") run_create.1) run_create.2 0%nat);
    reflexivity.
Defined.
End more_on_promises.

(* ===================================================================== *)
(** * Further properties of nextResource and of the accessor *)
(* ===================================================================== *)

Section more_on_transitions.
Implicit Types (σ : Heap) (storage : StorageRef) (r target : Resource.t) (patch : Patch.t).

(** A call allocates one promise, and a second one when it enters
    loading. *)
Lemma nextResource_length target patch storage σ :
  length (promises (nextResource target patch storage σ).2)
  = (length (promises σ)
     + if negb (Resource.loading target) && Patch.loading patch then 2 else 1)%nat.
Proof.
  rewrite nextResource_unfold.
  assert (length (promises (createResource VUndefined defaultStorage σ).2)
          = (length (promises σ) + 1)%nat) as H1.
  { rewrite createResource_undefined. cbn. by rewrite length_app. }
  set (result := Resource.mk _ _ _ _ _ (Some (length (promises σ)))).
  pose proof (resolve_unfold storage result
                (createResource VUndefined defaultStorage σ).2) as Hres.
  pose proof (reject_unfold storage result
                (createResource VUndefined defaultStorage σ).2) as Hrej.
  cbn [Resource.promise result] in Hres, Hrej.
  destruct (Resource.loading target), (Patch.loading patch); cbn [negb eqb andb snd].
  - done.
  - destruct (defined _); cbn [snd]; [rewrite Hrej|rewrite Hres]; cbn [snd];
      destruct (registry _ _ !! _); cbn; by rewrite ?settle_length.
  - rewrite renew_promises, length_app, H1. cbn. lia.
  - done.
Qed.

Lemma nextResource_allocated target patch storage σ :
  promise_allocated σ target →
  promise_allocated (nextResource target patch storage σ).2
    (nextResource target patch storage σ).1.
Proof.
  intros (p & Hp & Hlt). unfold promise_allocated.
  rewrite nextResource_promise, nextResource_length, Hp.
  destruct (Resource.loading target), (Patch.loading patch); cbn [eqb negb andb];
    eexists; (split; [reflexivity|lia]).
Qed.

(** X7: the heap stays well-formed.  If every storage entry belongs to an
    allocated promise and holds the controls of that promise, the same is
    true after [createResource], after [nextResource] and after a call of
    the accessor. *)
Theorem heap_wf_preserved (data : Value) target patch storage r σ :
  heap_wf σ →
  heap_wf (createResource data storage σ).2
  ∧ heap_wf (nextResource target patch storage σ).2
  ∧ heap_wf (accessor r σ).2.
Proof.
  intros Hwf. split; [by apply createResource_wf|]. split; [by apply nextResource_wf|].
  unfold accessor.
  destruct (Resource.loading r); [destruct (Resource.promise r)|destruct (truthy _)];
    run_M; cbn [snd]; try done.
  by apply alloc_wf.
Qed.

Lemma heap_wf_preserved_witness :
  heap_wf run_pending.2
  ∧ registry run_pending.2 defaultStorage !! 0%nat = Some (mkControls 0 0)
  ∧ registry run_pending.2 defaultStorage !! 2%nat = Some (mkControls 2 2)
  ∧ heap_wf (createResource (VStr "x") defaultStorage run_pending.2).2
  ∧ heap_wf (nextResource run_pending.1 (Patch.mk false (VStr "x") VUndefined)
               defaultStorage run_pending.2).2
  ∧ heap_wf (accessor run_pending.1 run_pending.2).2.
Proof.
  assert (heap_wf run_pending.2) as Hwf.
  { apply nextResource_wf, createResource_wf, heap_wf_empty. }
  split; [exact Hwf|]. do 2 (split; [reflexivity|]).
  exact (heap_wf_preserved (VStr "x") run_pending.1 (Patch.mk false (VStr "x") VUndefined)
           defaultStorage run_pending.1 run_pending.2 Hwf).
Defined.

(** X8: resources stay consistent.  The [state] of a new resource is the
    classification of its fields and its promise is an allocated object;
    [nextResource] on a resource with an allocated promise gives a resource
    of which the same is true. *)
Theorem consistent_preserved (data : Value) target patch storage σ :
  (consistent (createResource data storage σ).1
   ∧ promise_allocated (createResource data storage σ).2 (createResource data storage σ).1)
  ∧ (promise_allocated σ target →
     consistent (nextResource target patch storage σ).1
     ∧ promise_allocated (nextResource target patch storage σ).2
         (nextResource target patch storage σ).1).
Proof.
  split.
  - split; [apply createResource_consistent|apply createResource_allocated].
  - intros Halloc. split; [|by apply nextResource_allocated].
    apply nextResource_consistent. destruct Halloc as (p & -> & _). eauto.
Qed.

Lemma consistent_preserved_witness :
  promise_allocated run_pending.2 run_pending.1
  ∧ consistent (nextResource run_pending.1 (Patch.mk false (VStr "x") VUndefined)
                  defaultStorage run_pending.2).1
  ∧ promise_allocated
      (nextResource run_pending.1 (Patch.mk false (VStr "x") VUndefined)
         defaultStorage run_pending.2).2
      (nextResource run_pending.1 (Patch.mk false (VStr "x") VUndefined)
         defaultStorage run_pending.2).1.
Proof.
  assert (promise_allocated run_pending.2 run_pending.1) as Halloc.
  { exists 2%nat. split; [reflexivity|vm_compute; lia]. }
  split; [exact Halloc|].
  exact (proj2 (consistent_preserved (VStr "x") run_pending.1
                  (Patch.mk false (VStr "x") VUndefined) defaultStorage run_pending.2)
           Halloc).
Defined.

(** X9: [nextResource] leaves every promise that exists alone.  On a
    well-formed heap no promise that exists before the call is settled by
    it, and no storage entry of such a promise is added, changed or
    removed, the promise of [target] included; the call only adds promises,
    one, or two when it enters loading. *)
Theorem nextResource_existing_untouched target patch storage σ (q : PromiseRef) :
  heap_wf σ → (q < length (promises σ))%nat →
  let σ' := (nextResource target patch storage σ).2 in
  promises σ' !! q = promises σ !! q
  ∧ (∀ s, registry σ' s !! q = registry σ s !! q)
  ∧ length (promises σ')
    = (length (promises σ)
       + if negb (Resource.loading target) && Patch.loading patch then 2 else 1)%nat.
Proof.
  intros Hwf Hq. cbn zeta.
  destruct (nextResource_same_at target patch storage σ q Hwf Hq) as [Hp Hr].
  split; [done|]. split; [done|]. apply nextResource_length.
Qed.

Lemma nextResource_existing_untouched_witness :
  let σ' := (nextResource run_pending.1 (Patch.mk false (VStr "x") VUndefined)
               defaultStorage run_pending.2).2 in
  heap_wf run_pending.2 ∧ (2 < length (promises run_pending.2))%nat
  ∧ promises σ' !! 2%nat = promises run_pending.2 !! 2%nat
  ∧ (∀ s, registry σ' s !! 2%nat = registry run_pending.2 s !! 2%nat)
  ∧ length (promises σ') = (length (promises run_pending.2) + 1)%nat.
Proof.
  cbn zeta.
  assert (heap_wf run_pending.2) as Hwf.
  { apply nextResource_wf, createResource_wf, heap_wf_empty. }
  split; [exact Hwf|]. split; [vm_compute; lia|].
  apply (nextResource_existing_untouched run_pending.1
           (Patch.mk false (VStr "x") VUndefined) defaultStorage run_pending.2 2%nat Hwf).
  vm_compute; lia.
Defined.

(** X10: the promise reference of the result differs from the one of
    [target] exactly when [loading] changes, in either direction; with
    [loading] unchanged the result holds the very promise of [target]. *)
Theorem nextResource_promise_identity target patch storage σ :
  promise_allocated σ target →
  let r := (nextResource target patch storage σ).1 in
  (Resource.promise r ≠ Resource.promise target
   ↔ Resource.loading target ≠ Patch.loading patch)
  ∧ (Resource.loading target = Patch.loading patch →
     Resource.promise r = Resource.promise target).
Proof.
  intros Halloc. cbn zeta. split; [by apply nextResource_promise_changes|].
  intros Hl. by rewrite nextResource_promise, Hl, eqb_reflx.
Qed.

Lemma nextResource_promise_identity_witness :
  let r := (nextResource run_pending.1 (Patch.mk true (VStr "x") VUndefined)
              defaultStorage run_pending.2).1 in
  promise_allocated run_pending.2 run_pending.1
  ∧ (Resource.promise r ≠ Resource.promise run_pending.1
     ↔ Resource.loading run_pending.1 ≠ true)
  ∧ (Resource.loading run_pending.1 = true →
     Resource.promise r = Resource.promise run_pending.1).
Proof.
  cbn zeta.
  assert (promise_allocated run_pending.2 run_pending.1) as Halloc.
  { exists 2%nat. split; [reflexivity|vm_compute; lia]. }
  split; [exact Halloc|].
  exact (nextResource_promise_identity run_pending.1
           (Patch.mk true (VStr "x") VUndefined) defaultStorage run_pending.2 Halloc).
Defined.

(** X11: entering loading.  When [target] is not loading and the patch is,
    the result holds a promise that did not exist, pending and registered
    in the given storage under its own controls, and its state is
    [refreshing] if the patch brings data and [pending] if not. *)
Theorem nextResource_entering_loading target patch storage σ :
  Resource.loading target = false → Patch.loading patch = true →
  let out := nextResource target patch storage σ in
  let n := S (length (promises σ)) in
  Resource.promise out.1 = Some n
  ∧ promises out.2 !! n = Some Pending
  ∧ registry out.2 storage !! n = Some (mkControls n n)
  ∧ Resource.state out.1 = (if defined (Patch.data patch) then refreshing else pending).
Proof.
  intros Ht Hl. cbn zeta.
  pose proof (nextResource_fields target patch storage σ) as (_ & _ & _ & _ & Hs).
  rewrite nextResource_promise, Ht, Hl. cbn [eqb]. split; [done|].
  assert (length (promises (createResource VUndefined defaultStorage σ).2)
          = S (length (promises σ))) as H1.
  { rewrite createResource_undefined. cbn. rewrite length_app. cbn. lia. }
  split; [|split].
  - rewrite nextResource_unfold, Ht, Hl. cbn [eqb negb].
    rewrite renew_promises, <- H1. by rewrite lookup_app_r, Nat.sub_diag.
  - rewrite nextResource_unfold, Ht, Hl. cbn [eqb negb].
    rewrite <- H1. apply renew_registered.
  - rewrite Hs, Hl. classify. cbn. by rewrite andb_true_r.
Qed.

Lemma nextResource_entering_loading_witness :
  let out := nextResource run_ready.1 (Patch.mk true (VStr "x") VUndefined)
               defaultStorage run_ready.2 in
  Resource.loading run_ready.1 = false
  ∧ Resource.promise out.1 = Some 5%nat
  ∧ promises out.2 !! 5%nat = Some Pending
  ∧ registry out.2 defaultStorage !! 5%nat = Some (mkControls 5 5)
  ∧ Resource.state out.1 = refreshing.
Proof.
  cbn zeta. split; [reflexivity|].
  exact (nextResource_entering_loading run_ready.1 (Patch.mk true (VStr "x") VUndefined)
           defaultStorage run_ready.2 eq_refl eq_refl).
Defined.

(** X12: leaving loading without an error, with the default storage.  The
    promise of the result is resolved with the data of the patch, which
    fulfils it unless the data is a promise, and has no storage entry
    left; the state is [ready] for truthy data and [unresolved]
    otherwise. *)
Theorem nextResource_leaving_loading target patch σ :
  heap_wf σ → Resource.loading target = true → Patch.loading patch = false →
  Patch.error patch = VUndefined →
  let out := nextResource target patch defaultStorage σ in
  ∃ p, Resource.promise out.1 = Some p
       ∧ promises out.2 !! p = Some (resolution p (Patch.data patch))
       ∧ (instanceofPromise (Patch.data patch) = false →
          promises out.2 !! p = Some (Fulfilled (Patch.data patch)))
       ∧ registry out.2 defaultStorage !! p = None
       ∧ Resource.state out.1 = (if truthy (Patch.data patch) then ready else unresolved).
Proof.
  intros Hwf Ht Hl He. cbn zeta. exists (length (promises σ)).
  pose proof (nextResource_fields target patch defaultStorage σ) as (_ & _ & _ & _ & Hs).
  destruct (nextResource_settles_new target patch σ Hwf Ht Hl) as [Hp Hr].
  rewrite He in Hp. cbn [defined] in Hp.
  rewrite nextResource_promise, Ht, Hl. cbn [eqb].
  split; [done|]. split; [done|].
  split; [intros Hv; by rewrite Hp, resolution_value|]. split; [done|].
  rewrite Hs, Hl, He. by apply classify_settled_data.
Qed.

Lemma nextResource_leaving_loading_witness :
  let out := nextResource run_pending.1 (Patch.mk false (VStr "x") VUndefined)
               defaultStorage run_pending.2 in
  heap_wf run_pending.2 ∧ Resource.loading run_pending.1 = true
  ∧ ∃ p, Resource.promise out.1 = Some p
         ∧ promises out.2 !! p = Some (resolution p (VStr "x"))
         ∧ (instanceofPromise (VStr "x") = false →
            promises out.2 !! p = Some (Fulfilled (VStr "x")))
         ∧ registry out.2 defaultStorage !! p = None
         ∧ Resource.state out.1 = ready.
Proof.
  cbn zeta.
  assert (heap_wf run_pending.2) as Hwf.
  { apply nextResource_wf, createResource_wf, heap_wf_empty. }
  split; [exact Hwf|]. split; [reflexivity|].
  exact (nextResource_leaving_loading run_pending.1 (Patch.mk false (VStr "x") VUndefined)
           run_pending.2 Hwf eq_refl eq_refl eq_refl).
Defined.

(** X13: a patch that repeats the fields of a consistent resource changes
    nothing of it that the patch covers: the result has the same [data],
    [loading] and [error], the same [state] and the very same promise.  No
    promise that exists changes; the heap gains one pending promise. *)
Theorem nextResource_idempotent target storage σ :
  consistent target →
  let out := nextResource target (fields target) storage σ in
  fields out.1 = fields target
  ∧ Resource.state out.1 = Resource.state target
  ∧ Resource.promise out.1 = Resource.promise target
  ∧ promises out.2 = promises σ ++ [Pending].
Proof.
  intros Hc. cbn zeta.
  destruct (nextResource_same_fields target storage σ Hc) as (Hf & Hs & Hp).
  do 3 (split; [done|]).
  by apply (nextResource_unchanged_loading target (fields target) storage σ).
Qed.

Lemma nextResource_idempotent_witness :
  let out := nextResource run_ready.1 (fields run_ready.1) defaultStorage run_ready.2 in
  consistent run_ready.1
  ∧ fields out.1 = fields run_ready.1
  ∧ Resource.state out.1 = Resource.state run_ready.1
  ∧ Resource.promise out.1 = Resource.promise run_ready.1
  ∧ promises out.2 = promises run_ready.2 ++ [Pending].
Proof.
  cbn zeta.
  assert (consistent run_ready.1) as Hc by (split; [reflexivity|by exists 3%nat]).
  split; [exact Hc|].
  exact (nextResource_idempotent run_ready.1 defaultStorage run_ready.2 Hc).
Defined.

(** X14: the accessor on a resource that loads but has no promise throws a
    promise of its own making: one that did not exist, already rejected
    with the error "incorrect resource state"; no storage and no other
    promise is touched. *)
Theorem accessor_without_promise r σ :
  Resource.loading r = true → Resource.promise r = None →
  let out := accessor r σ in
  let n := length (promises σ) in
  out.1 = Throw (VPromise n)
  ∧ promises out.2 = promises σ ++ [Rejected (VError "incorrect resource state")]
  ∧ storages out.2 = storages σ.
Proof. intros Hl Hp. cbn zeta. unfold accessor. by rewrite Hl, Hp. Qed.

Lemma accessor_without_promise_witness :
  let r := Resource.set_loading true Resource.blank in
  Resource.loading r = true ∧ Resource.promise r = None
  ∧ (accessor r emptyHeap).1 = Throw (VPromise 0)
  ∧ promises (accessor r emptyHeap).2 = [Rejected (VError "incorrect resource state")]
  ∧ storages (accessor r emptyHeap).2 = storages emptyHeap.
Proof.
  cbn zeta. do 2 (split; [reflexivity|]).
  exact (accessor_without_promise (Resource.set_loading true Resource.blank) emptyHeap
           eq_refl eq_refl).
Defined.

(** X15: the accessor on a consistent resource, state by state.  It never
    changes the heap.  In [pending] and [refreshing] it throws the promise
    of the resource; in [ready] and [unresolved] it returns [data]; in
    [errored] it throws the error if the error is truthy and returns [data]
    if not. *)
Theorem accessor_by_state r σ :
  consistent r →
  (accessor r σ).2 = σ
  ∧ match Resource.state r with
    | pending | refreshing =>
        ∃ p, Resource.promise r = Some p ∧ (accessor r σ).1 = Throw (VPromise p)
    | ready | unresolved => (accessor r σ).1 = Return (Resource.data r)
    | errored =>
        (accessor r σ).1
        = if truthy (Resource.error r) then Throw (Resource.error r)
          else Return (Resource.data r)
    end.
Proof.
  intros Hc. pose proof (consistent_state r Hc) as Hs.
  destruct Hc as [_ [p Hp]]. unfold accessor. rewrite Hp, Hs.
  destruct (Resource.loading r).
  - split; [done|]. destruct (defined _); eauto.
  - destruct (defined (Resource.error r)) eqn:He.
    + by destruct (truthy (Resource.error r)).
    + apply defined_false in He. rewrite He. cbn [truthy].
      by destruct (truthy (Resource.data r)).
Qed.

Lemma accessor_by_state_witness :
  consistent run_ready.1
  ∧ (accessor run_ready.1 run_ready.2).2 = run_ready.2
  ∧ (accessor run_ready.1 run_ready.2).1 = Return (VStr "x").
Proof.
  assert (consistent run_ready.1) as Hc by (split; [reflexivity|by exists 3%nat]).
  split; [exact Hc|].
  exact (accessor_by_state run_ready.1 run_ready.2 Hc).
Defined.
End more_on_transitions.

(* ===================================================================== *)
(** * Further properties of useAsyncState *)
(* ===================================================================== *)

Section more_on_the_hook.
Variable reducer : AsyncState.t → Action → M AsyncState.t.
Variable opts : UseAsyncStateOpts.
Implicit Types (h : Hook.t) (σ : Heap) (p q : PromiseRef) (o : Settlement).

Local Abbreviation run := (useAsyncState.run reducer opts).
Local Abbreviation settled := (useAsyncState.settled reducer opts).
Local Abbreviation asynHandler_resume := (useAsyncState.asynHandler_resume reducer opts).

(** A run of settlements, one event each. *)
Local Abbreviation settlements ss :=
  (map (λ s : PromiseRef * Settlement, Settled s.1 s.2) ss).

(** Settlements of promises other than the last one that was set change
    nothing that can be observed, however many there are. *)
Lemma run_stale_settlements h σ (ss : list (PromiseRef * Settlement)) :
  Forall (λ s, Hook.lastPrms h ≠ Some s.1) ss →
  observe (run h (settlements ss) σ) = observe (h, σ).
Proof.
  revert h. induction ss as [|[q o] ss IH]; intros h Hstale; [done|].
  apply Forall_cons in Hstale as [Hq Hss].
  cbn [map useAsyncState.run useAsyncState.step fst snd]. run_M.
  rewrite settled_stale by done. cbn [fst snd].
  by rewrite IH.
Qed.

(** X16: of any number of calls, only the last counts.  After [set] with a
    promise [p], the settlements of other promises, however many and in
    whatever order and with whatever outcome, change nothing that can be
    observed: not the model, not the ref, not the heap, and no callback is
    invoked. *)
Theorem earlier_calls_discarded h σ p (ss : list (PromiseRef * Settlement)) :
  Forall (λ s, s.1 ≠ p) ss →
  observe (run h (Set_ (VPromise p) :: settlements ss) σ)
  = observe (useAsyncState.set reducer (VPromise p) h σ).
Proof.
  intros Hss. cbn [useAsyncState.run useAsyncState.step]. run_M.
  rewrite run_stale_settlements; [done|].
  eapply Forall_impl; [exact Hss|]. intros [q o] Hq.
  rewrite set_promise_lastPrms. cbn in *. congruence.
Qed.

(** X17: after the cleanup of the mount effect no settlement reaches the
    model.  Whatever was in flight, an unmounted instance keeps its state,
    no callback is invoked and the heap is as it was. *)
Theorem unmounted_ignores_settlements h σ (ss : list (PromiseRef * Settlement)) :
  observe (run h (Unmount :: settlements ss) σ)
  = (Hook.state h, None, Hook.calls h, σ).
Proof.
  cbn [useAsyncState.run useAsyncState.step]. run_M.
  rewrite run_stale_settlements; [done|].
  apply Forall_forall. intros s _. by cbn.
Qed.

(** X18: a call that is not overtaken is applied.  After [set] with a
    promise [p] that no handler awaited yet, the settlement of [p] is
    applied to the instance as [set] left it. *)
Theorem single_call_applied h σ p o :
  p ∉ Hook.awaiting h →
  let issued := useAsyncState.set reducer (VPromise p) h σ in
  observe (run h [Set_ (VPromise p); Settled p o] σ)
  = observe (apply_settlement reducer opts o issued.1 issued.2).
Proof.
  intros Hfresh. cbn zeta. cbn [useAsyncState.run useAsyncState.step]. run_M.
  rewrite settled_current; [reflexivity|apply set_promise_lastPrms|].
  rewrite set_promise_awaiting, filter_app, filter_eq_absent by done.
  by rewrite filter_cons_True.
Qed.

(** X20: the promise of the first render.  When the instance mounts in a
    loading state with a promise [p] that no handler awaits yet, the mount
    effect awaits it, and its settlement is applied. *)
Theorem initial_promise_applied h σ p o :
  AsyncState.loading (Hook.state h) = true →
  AsyncState.promise (Hook.state h) = Some p →
  p ∉ Hook.awaiting h →
  observe (run h [Mount; Settled p o] σ)
  = observe (apply_settlement reducer opts o (Hook.set_lastPrms (Some p) h) σ).
Proof.
  intros Hl Hp Hfresh. cbn [useAsyncState.run useAsyncState.step]. run_M.
  unfold useAsyncState.mount. rewrite Hl, Hp. cbn [fst snd].
  rewrite settled_current; [|reflexivity|].
  - change (useAsyncState.asynHandler p (Hook.set_lastPrms (Some p) h) σ)
      with (Hook.set_awaiting (Hook.awaiting h ++ [p]) (Hook.set_lastPrms (Some p) h), σ).
    cbn [fst snd]. rewrite apply_settlement_set_awaiting. reflexivity.
  - change (Hook.awaiting _) with (Hook.awaiting h ++ [p]).
    rewrite filter_app, filter_eq_absent by done.
    by rewrite filter_cons_True.
Qed.

(** X21: a callback that throws.  When the promise fulfils and
    [onCompleted] throws, the handler goes on as if the promise had been
    rejected with the thrown value, on top of the result that was
    dispatched: the error is dispatched and [onError] is told. *)
Theorem onCompleted_throw_is_rejection h σ p (data err : Value) f :
  Hook.lastPrms h = Some p →
  onCompleted opts = Some f →
  let dispatched := useAsyncState.dispatch reducer (RESULT data) h σ in
  (f data dispatched.2).1 = Throw err →
  asynHandler_resume p (Fulfils data) h σ
  = asynHandler_resume p (Rejects err)
      (Hook.log (CallOnCompleted data) dispatched.1) (f data dispatched.2).2.
Proof.
  intros Hcur Hcb. cbn zeta. intros Hthrow.
  unfold useAsyncState.asynHandler_resume. rewrite decide_True by done.
  run_M. unfold useAsyncState.invoke at 1 2 3. rewrite Hcb. run_M.
  cbn [fst snd]. by rewrite Hthrow.
Qed.
End more_on_the_hook.

Lemma earlier_calls_discarded_witness :
  let ss := [(1%nat, Fulfils (VStr "a")); (2%nat, Rejects (VStr "b"))] in
  Hook.awaiting two_in_flight.1 = [1%nat; 2%nat]
  ∧ Forall (λ s : PromiseRef * Settlement, s.1 ≠ 3%nat) ss
  ∧ observe (useAsyncState.run asyncStateReducer returning_callbacks two_in_flight.1
               (Set_ (VPromise 3)
                :: map (λ s : PromiseRef * Settlement, Settled s.1 s.2) ss)
               two_in_flight.2)
    = observe (useAsyncState.set asyncStateReducer (VPromise 3)
                 two_in_flight.1 two_in_flight.2).
Proof.
  cbn zeta. split; [reflexivity|].
  assert (Forall (λ s : PromiseRef * Settlement, s.1 ≠ 3%nat)
            [(1%nat, Fulfils (VStr "a")); (2%nat, Rejects (VStr "b"))]) as Hss.
  { repeat constructor; cbn; lia. }
  split; [exact Hss|].
  exact (earlier_calls_discarded asyncStateReducer returning_callbacks
           two_in_flight.1 two_in_flight.2 3%nat _ Hss).
Defined.

(** The same run, looked at: two handlers were suspended and have resumed,
    and the model still loads the third promise. *)
Example earlier_calls_discarded_outcome :
  let final :=
    useAsyncState.run asyncStateReducer returning_callbacks two_in_flight.1
      [Set_ (VPromise 3); Settled 1 (Fulfils (VStr "a")); Settled 2 (Rejects (VStr "b"))]
      two_in_flight.2 in
  Hook.state final.1 = AsyncState.mk true VNull VNull (Some 3%nat)
  ∧ Hook.awaiting final.1 = [3%nat]
  ∧ Hook.calls final.1 = [].
Proof. vm_compute. repeat split. Qed.

Lemma single_call_applied_witness :
  let issued := useAsyncState.set asyncStateReducer (VPromise 1) idle emptyHeap in
  (1%nat ∉ Hook.awaiting idle)
  ∧ observe (useAsyncState.run asyncStateReducer returning_callbacks idle
               [Set_ (VPromise 1); Settled 1 (Fulfils (VStr "a"))] emptyHeap)
    = observe (apply_settlement asyncStateReducer returning_callbacks
                 (Fulfils (VStr "a")) issued.1 issued.2).
Proof.
  cbn zeta. split; [apply not_elem_of_nil|].
  apply (single_call_applied asyncStateReducer returning_callbacks idle emptyHeap
           1%nat (Fulfils (VStr "a"))).
  apply not_elem_of_nil.
Defined.

Lemma initial_promise_applied_witness :
  AsyncState.loading (Hook.state loading_hook) = true
  ∧ AsyncState.promise (Hook.state loading_hook) = Some 1%nat
  ∧ (1%nat ∉ Hook.awaiting loading_hook)
  ∧ observe (useAsyncState.run asyncStateReducer returning_callbacks loading_hook
               [Mount; Settled 1 (Rejects (VStr "e"))] emptyHeap)
    = observe (apply_settlement asyncStateReducer returning_callbacks
                 (Rejects (VStr "e")) (Hook.set_lastPrms (Some 1%nat) loading_hook)
                 emptyHeap).
Proof.
  do 2 (split; [reflexivity|]). split; [apply not_elem_of_nil|].
  apply (initial_promise_applied asyncStateReducer returning_callbacks loading_hook
           emptyHeap 1%nat (Rejects (VStr "e")));
    [reflexivity|reflexivity|apply not_elem_of_nil].
Defined.

Lemma onCompleted_throw_is_rejection_witness :
  let f : Value → M Completion := λ _, mret (Throw (VStr "boom")) in
  let h := Hook.set_lastPrms (Some 1%nat) loading_hook in
  let dispatched :=
    useAsyncState.dispatch asyncStateReducer (RESULT (VStr "a")) h emptyHeap in
  Hook.lastPrms h = Some 1%nat
  ∧ onCompleted throwing_callbacks = Some f
  ∧ (f (VStr "a") dispatched.2).1 = Throw (VStr "boom")
  ∧ useAsyncState.asynHandler_resume asyncStateReducer throwing_callbacks
      1%nat (Fulfils (VStr "a")) h emptyHeap
    = useAsyncState.asynHandler_resume asyncStateReducer throwing_callbacks
        1%nat (Rejects (VStr "boom"))
        (Hook.log (CallOnCompleted (VStr "a")) dispatched.1)
        (f (VStr "a") dispatched.2).2.
Proof.
  cbn zeta. do 3 (split; [reflexivity|]).
  exact (onCompleted_throw_is_rejection asyncStateReducer throwing_callbacks
           (Hook.set_lastPrms (Some 1%nat) loading_hook) emptyHeap 1%nat
           (VStr "a") (VStr "boom") (λ _, mret (Throw (VStr "boom")))
           eq_refl eq_refl eq_refl).
Defined.

(** What the throwing callback comes to with the reducer of the README: the
    model ends in the error that was thrown, and both callbacks were
    invoked. *)
Example onCompleted_throw_outcome :
  let final :=
    useAsyncState.run asyncStateReducer throwing_callbacks idle
      [Set_ (VPromise 1); Settled 1 (Fulfils (VStr "a"))] emptyHeap in
  Hook.state final.1 = AsyncState.mk false (VStr "boom") VNull (Some 1%nat)
  ∧ Hook.calls final.1 = [CallOnCompleted (VStr "a"); CallOnError (VStr "boom")].
Proof. vm_compute. by split. Qed.
